(** * nx_fsutils: the [ReadLines] delimiter scanner

    A shallow embedding of [src/nx_fsutils/__init__.py].  The class
    [ReadLines] reads a stream chunk by chunk and cuts it into records that
    end with a delimiter, which is either a literal ([str]/[bytes]) or a
    compiled regular expression.

    Modelling decisions.
    - A unit of the stream (a character in text mode, a byte in binary mode)
      is an [ascii]; a Python [str]/[bytes] value is a [list ascii].
    - Python integers are unbounded: every index, size and offset is a [Z].
    - The underlying file object behaves like [io.StringIO] or a buffered
      regular file: it is seekable, and [read(n)] returns [min n remaining]
      units ([n < 0] reads everything).  It lives in a store of its own
      ([file] of [World]) because a borrowed handle is shared with the
      caller; the scanner only holds a reference to it ([_fobj]).
    - A compiled pattern is the function [search buf pos] of the host's
      regular expression engine, returning the start and the end of the first
      match at or after [pos]; the [endpos] of a match object produced by
      [pattern.search(buf, pos)] is [len(buf)].
    - Exceptions are values of [exn]; a mutation made before an exception is
      raised stays visible in the returned [World].
    - The [mode], [encoding], [errors] and [newline] arguments only select
      how the host decodes the file into units; they are not modelled.
    - [while True] loops run on fuel.  [_next] supplies a bound computed from
      the number of units left in the file; [_next_loop_total] and
      [_next_loop_fuel_irrelevant] show that the bound is never reached and
      that more fuel never changes the outcome. *)

From Stdlib Require Import String Ascii ZArith List Bool Lia.
Import ListNotations.
Open Scope Z_scope.


(** ** Python sequence primitives *)

Definition str := list ascii.

Definition len (s : str) : Z := Z.of_nat (length s).

(** Index normalisation of a slice bound, for a sequence of length [n]. *)
Definition clamp (n i : Z) : Z :=
  if i <? 0 then Z.max 0 (i + n) else Z.min i n.

(** [s[a:b]] *)
Definition slice (s : str) (a b : Z) : str :=
  let a' := clamp (len s) a in
  let b' := clamp (len s) b in
  firstn (Z.to_nat (b' - a')) (skipn (Z.to_nat a') s).

(** [s[a:]] *)
Definition slice_from (s : str) (a : Z) : str :=
  skipn (Z.to_nat (clamp (len s) a)) s.

(** [not s] *)
Definition is_empty (s : str) : bool :=
  match s with [] => true | _ :: _ => false end.

(** [s.startswith(sub)] *)
Fixpoint startswith (sub s : str) : bool :=
  match sub, s with
  | [], _ => true
  | _ :: _, [] => false
  | c :: sub', d :: s' => Ascii.eqb c d && startswith sub' s'
  end.

Fixpoint find_aux (sub s : str) (i : Z) : Z :=
  if startswith sub s then i
  else match s with
       | [] => -1
       | _ :: t => find_aux sub t (i + 1)
       end.

(** [s.find(sub, start)]: lowest index at or after [start] where [sub]
    occurs in [s], or [-1]. *)
Definition find (s sub : str) (start : Z) : Z :=
  let start' := if start <? 0 then Z.max 0 (start + len s) else start in
  if len s <? start' then -1
  else find_aux sub (skipn (Z.to_nat start') s) start'.

(** [math.ceil(a / b)] for [b <> 0].  The source divides in floating point;
    the quotient is exact for operands below [2^53], which covers every
    buffer that fits in memory. *)
Definition ceil_div (a b : Z) : Z := - ((- a) / b).

(** ** Exceptions and outcomes *)

Inductive exn :=
| StopIteration
| AttributeError
| ValueError
| OSError
| ZeroDivisionError.

Inductive outcome (A : Type) :=
| Ok (a : A)
| Raise (e : exn)
| Diverge.
Arguments Ok {A} a.
Arguments Raise {A} e.
Arguments Diverge {A}.

(** ** The underlying file object *)

Record File := mkFile {
  data : str;
  fpos : Z;
  fclosed : bool
}.

Definition remaining (f : File) : str := slice_from (data f) (fpos f).

(** [fobj.read(size)]; [None] stands for the [ValueError] that any
    operation on a closed file raises. *)
Definition fobj_read (f : File) (size : Z) : option str * File :=
  if fclosed f then (None, f)
  else
    let avail := Z.max 0 (len (data f) - fpos f) in
    let n := if size <? 0 then avail else Z.min size avail in
    (Some (slice (data f) (fpos f) (fpos f + n)),
     mkFile (data f) (fpos f + n) (fclosed f)).

(** [fobj.tell()] *)
Definition fobj_tell (f : File) : option Z :=
  if fclosed f then None else Some (fpos f).

(** [fobj.seek(offset)]; a negative offset is a [ValueError] as well. *)
Definition fobj_seek (f : File) (offset : Z) : option Z * File :=
  if fclosed f then (None, f)
  else if offset <? 0 then (None, f)
  else (Some offset, mkFile (data f) offset (fclosed f)).

(** [fobj.close()] *)
Definition fobj_close (f : File) : File := mkFile (data f) (fpos f) true.

(** Iterating a file object yields its lines, each with its newline. *)
Fixpoint split_lines (cur : str) (s : str) : list str :=
  match s with
  | [] => match cur with [] => [] | _ => [cur] end
  | c :: t =>
      if Ascii.eqb c "010"%char then (cur ++ [c]) :: split_lines [] t
      else split_lines (cur ++ [c]) t
  end.

Definition fobj_iter (f : File) : option (list str) * File :=
  if fclosed f then (None, f)
  else (Some (split_lines [] (remaining f)),
        mkFile (data f) (Z.max (fpos f) (len (data f))) (fclosed f)).

(** ** Opening a source *)

(** What the caller passes as [src]: a path (here with the content the file
    at that path has, [None] when it cannot be opened) or a file object. *)
Inductive Src :=
| Path (content : option str)
| Handle (f : File).

Definition is_path (src : Src) : bool :=
  match src with Path _ => true | Handle _ => false end.

(** [io.open] fails with an [OSError] when the path cannot be opened. *)
Definition open_file (content : option str) : outcome File :=
  match content with
  | Some d => Ok (mkFile d 0 false)
  | None => Raise OSError
  end.

Definition open_src_file (src : Src) : outcome (File * bool) :=
  let managed := is_path src in
  match src with
  | Path content =>
      match open_file content with
      | Ok f => Ok (f, managed)
      | Raise e => Raise e
      | Diverge => Diverge
      end
  | Handle f => Ok (f, managed)
  end.

(** ** The scanner *)

Inductive Delimiter :=
| Literal (d : str)
| Pattern (search : str -> Z -> option (Z * Z)).

(** The one file object of the store. *)
Inductive handle := Fobj.

Record ReadLines := mkReadLines {
  _closed : bool;
  _fobj : option handle;
  _managed : bool;
  _start : Z;
  buffer_size : Z;
  _buf : str;
  _idx : Z;
  _eof : bool;
  delimiter : Delimiter
}.

Record World := mkWorld {
  file : File;
  self : ReadLines
}.

Definition set_file (w : World) (f : File) : World := mkWorld f (self w).

Definition set_eof (w : World) (b : bool) : World :=
  let s := self w in
  mkWorld (file w)
    (mkReadLines (_closed s) (_fobj s) (_managed s) (_start s)
       (buffer_size s) (_buf s) (_idx s) b (delimiter s)).

Definition set_buf (w : World) (buf : str) : World :=
  let s := self w in
  mkWorld (file w)
    (mkReadLines (_closed s) (_fobj s) (_managed s) (_start s)
       (buffer_size s) buf (_idx s) (_eof s) (delimiter s)).

Definition set_buf_idx (w : World) (buf : str) (idx : Z) : World :=
  let s := self w in
  mkWorld (file w)
    (mkReadLines (_closed s) (_fobj s) (_managed s) (_start s)
       (buffer_size s) buf idx (_eof s) (delimiter s)).

Definition BUFFER_SIZE : Z := 1048576.

(** One pass through the body of the [while True] loop of [_next]. *)
Inductive step :=
| Return (buf : str) (match_start match_end : Z)
| Continue (buf : str) (idx search_idx : Z)
| Fail (e : exn).

(** Lines 250-262: the search found nothing final. *)
Definition _next_refill (w : World) (buf : str) (idx search_offset : Z)
  : step * World :=
  if _eof (self w) then
    let end_ := len buf in
    if idx <? end_ then (Return buf idx end_, w)
    else (Return [] 0 0, w)
  else
    let buf := slice_from buf idx in
    let idx := 0 in
    let search_idx := len buf - search_offset in
    let search_idx := if search_idx <? 0 then 0 else search_idx in
    match _fobj (self w) with
    | None => (Fail AttributeError, w)
    | Some Fobj =>
        match fobj_read (file w) (buffer_size (self w)) with
        | (Some more, f) =>
            let buf := buf ++ more in
            let w := set_file w f in
            (Continue buf idx search_idx,
             if is_empty more then set_eof w true else w)
        | (None, f) => (Fail ValueError, set_file w f)
        end
    end.

(** Lines 234-249, then the refill. *)
Definition _next_iter (delimiter : Delimiter) (w : World)
    (buf : str) (idx search_idx : Z) : step * World :=
  match delimiter with
  | Literal d =>
      let result := find buf d search_idx in
      if negb (result =? -1) then (Return buf idx (result + len d), w)
      else _next_refill w buf idx (len d - 1)
  | Pattern search =>
      match search buf search_idx with
      | Some (rstart, rend) =>
          if negb (len buf =? rend) then (Return buf idx rend, w)
          else _next_refill w buf idx (rend - rstart)
      | None => _next_refill w buf idx (len buf - idx)
      end
  end.

Fixpoint _next_loop (fuel : nat) (delimiter : Delimiter) (w : World)
    (buf : str) (idx search_idx : Z) : outcome (str * Z * Z) * World :=
  match fuel with
  | O => (Diverge, w)
  | S fuel' =>
      match _next_iter delimiter w buf idx search_idx with
      | (Return b s e, w') => (Ok (b, s, e), w')
      | (Fail e, w') => (Raise e, w')
      | (Continue buf' idx' search_idx', w') =>
          _next_loop fuel' delimiter w' buf' idx' search_idx'
      end
  end.

(** Every pass that continues has read from the file, and a read that
    returns nothing sets [_eof]: the loop runs at most once per unit left in
    the file, plus twice. *)
Definition _next_fuel (w : World) : nat :=
  S (S (length (remaining (file w)))).

Definition _next (w : World) : outcome (str * Z * Z) * World :=
  let delimiter := delimiter (self w) in
  let buf := _buf (self w) in
  let idx := _idx (self w) in
  let search_idx := idx in
  _next_loop (_next_fuel w) delimiter w buf idx search_idx.

Definition __next__ (w : World) : outcome str * World :=
  match _next w with
  | (Ok (buf, match_start, match_end), w) =>
      let w := set_buf_idx w buf match_end in
      if match_end =? 0 then (Raise StopIteration, w)
      else (Ok (slice buf match_start match_end), w)
  | (Raise e, w) => (Raise e, w)
  | (Diverge, w) => (Diverge, w)
  end.

(** The inner [while 0 < tmp_buf_length < to_read] loop of [peek]. *)
Fixpoint peek_loop (fuel : nat) (w : World) (buf : str)
    (to_read tmp_buf_length : Z) : outcome str * World :=
  if (0 <? tmp_buf_length) && (tmp_buf_length <? to_read) then
    match fuel with
    | O => (Diverge, w)
    | S fuel' =>
        let to_read := to_read - tmp_buf_length in
        match fobj_read (file w) to_read with
        | (Some tmp_buf, f) =>
            let w := set_file w f in
            let tmp_buf_length := len tmp_buf in
            let w := if tmp_buf_length =? 0 then set_eof w true else w in
            peek_loop fuel' w (buf ++ tmp_buf) to_read tmp_buf_length
        | (None, f) => (Raise ValueError, set_file w f)
        end
    end
  else (Ok buf, w).

Definition peek (size : option Z) (w : World) : outcome str * World :=
  match size with
  | Some size =>
      if size <=? 0 then (Ok [], w)
      else
        let buf := _buf (self w) in
        let idx := _idx (self w) in
        let extra := size - (len buf - idx) in
        if (0 <? extra) && negb (_eof (self w)) then
          match _fobj (self w) with
          | None => (Raise AttributeError, w)
          | Some Fobj =>
              let buffer_size := buffer_size (self w) in
              if buffer_size =? 0 then (Raise ZeroDivisionError, w)
              else
                let to_read := ceil_div extra buffer_size * buffer_size in
                match fobj_read (file w) to_read with
                | (Some tmp_buf, f) =>
                    let w := set_file w f in
                    let tmp_buf_length := len tmp_buf in
                    let w :=
                      if tmp_buf_length =? 0 then set_eof w true else w in
                    match peek_loop (S (length (remaining (file w)))) w
                            (buf ++ tmp_buf) to_read tmp_buf_length with
                    | (Ok buf, w) =>
                        (Ok (slice buf idx (idx + size)), set_buf w buf)
                    | (Raise e, w) => (Raise e, w)
                    | (Diverge, w) => (Diverge, w)
                    end
                | (None, f) => (Raise ValueError, set_file w f)
                end
          end
        else (Ok (slice buf idx (idx + size)), w)
  | None =>
      match _next w with
      | (Ok (buf, match_start, match_end), w) =>
          (Ok (slice buf match_start match_end),
           set_buf_idx w buf match_start)
      | (Raise e, w) => (Raise e, w)
      | (Diverge, w) => (Diverge, w)
      end
  end.

Definition close (w : World) : outcome unit * World :=
  let s := self w in
  if negb (_closed s) then
    let fobj := _fobj s in
    let s' := mkReadLines true None (_managed s) (_start s) (buffer_size s)
                [] 0 true (delimiter s) in
    if _managed s then
      match fobj with
      | Some Fobj => (Ok tt, mkWorld (fobj_close (file w)) s')
      | None => (Raise AttributeError, mkWorld (file w) s')
      end
    else (Ok tt, mkWorld (file w) s')
  else (Ok tt, w).

Definition reset (new_delimiter : option Delimiter) (w : World)
  : outcome unit * World :=
  let s := self w in
  match _fobj s with
  | None => (Raise AttributeError, w)
  | Some Fobj =>
      match fobj_seek (file w) (_start s) with
      | (Some _, f) =>
          match fobj_read f (buffer_size s) with
          | (Some buf, f') =>
              (Ok tt,
               mkWorld f'
                 (mkReadLines (_closed s) (_fobj s) (_managed s) (_start s)
                    (buffer_size s) buf 0 (is_empty buf)
                    (match new_delimiter with
                     | Some d => d
                     | None => delimiter s
                     end)))
          | (None, f') => (Raise ValueError, set_file w f')
          end
      | (None, f) => (Raise ValueError, set_file w f)
      end
  end.

(** [ReadLines(src, delimiter=..., buffer_size=...)].  When [tell] or the
    first [read] raises, a managed handle is closed and the exception
    propagates; no scanner exists then. *)
Definition __init__ (src : Src) (delimiter : Delimiter) (buffer_size : Z)
  : outcome World :=
  match open_src_file src with
  | Ok (f, managed) =>
      match fobj_tell f with
      | Some start =>
          match fobj_read f buffer_size with
          | (Some buf, f') =>
              Ok (mkWorld f'
                    (mkReadLines false (Some Fobj) managed start buffer_size
                       buf 0 (is_empty buf) delimiter))
          | (None, _) => Raise ValueError
          end
      | None => Raise ValueError
      end
  | Raise e => Raise e
  | Diverge => Diverge
  end.

(** [list(rdr)], cut off after [fuel] calls of [__next__]. *)
Fixpoint collect (fuel : nat) (w : World) : outcome (list str) * World :=
  match fuel with
  | O => (Diverge, w)
  | S fuel' =>
      match __next__ w with
      | (Ok r, w') =>
          match collect fuel' w' with
          | (Ok rs, w'') => (Ok (r :: rs), w'')
          | other => other
          end
      | (Raise StopIteration, w') => (Ok [], w')
      | (Raise e, w') => (Raise e, w')
      | (Diverge, w') => (Diverge, w')
      end
  end.

(** [list(readlines(src, delimiter=..., buffer_size=...))]: the records, and
    the file object as the generator leaves it. *)
Definition readlines (fuel : nat) (src : Src) (delimiter : option Delimiter)
    (buffer_size : Z) : outcome (list str) * option File :=
  match delimiter with
  | Some d =>
      match __init__ src d buffer_size with
      | Ok rdr =>
          let (res, w) := collect fuel rdr in
          let (_, w) := close w in
          (res, Some (file w))
      | Raise e => (Raise e, None)
      | Diverge => (Diverge, None)
      end
  | None =>
      match open_src_file src with
      | Ok (fobj, managed) =>
          let (res, f) := fobj_iter fobj in
          (match res with Some ls => Ok ls | None => Raise ValueError end,
           Some (if managed then fobj_close f else f))
      | Raise e => (Raise e, None)
      | Diverge => (Diverge, None)
      end
  end.

(** * Vocabulary of the properties *)

(** [sub] occurs in [s] at offset [k]. *)
Definition occ (sub s : str) (k : nat) : bool := startswith sub (skipn k s).

(** What is left of the stream from the cursor on: the rest of the buffer,
    then what the file has not handed out. *)
Definition unconsumed (w : World) : str :=
  slice_from (_buf (self w)) (_idx (self w)) ++ remaining (file w).

(** The state of a scanner that is open on a readable file: the invariants
    of the class, with a positive chunk size. *)
Record wf (w : World) : Prop := mk_wf {
  wf_open : fclosed (file w) = false;
  wf_fpos : 0 <= fpos (file w);
  wf_fobj : _fobj (self w) = Some Fobj;
  wf_bs : 0 < buffer_size (self w);
  wf_idx : 0 <= _idx (self w) <= len (_buf (self w));
  wf_eof : _eof (self w) = true -> remaining (file w) = []
}.

(** A compiled pattern as the host's engine provides it: a match lies at or
    after the position searched from, inside the buffer. *)
Definition matcher_ok (search : str -> Z -> option (Z * Z)) : Prop :=
  forall buf pos rstart rend,
    0 <= pos -> search buf pos = Some (rstart, rend) ->
    pos <= rstart /\ rstart <= rend /\ rend <= len buf.

Definition delim_ok (d : Delimiter) : Prop :=
  match d with
  | Literal _ => True
  | Pattern search => matcher_ok search
  end.

(** The delimiter never matches the empty sequence. *)
Definition delim_nonempty (d : Delimiter) : Prop :=
  match d with
  | Literal d => d <> []
  | Pattern search =>
      forall buf pos rstart rend,
        search buf pos = Some (rstart, rend) -> rstart < rend
  end.

(** What a search of the whole remaining input yields: everything up to the
    end of the first occurrence of the delimiter, or all of it. *)
Definition first_record (d u : str) : str :=
  let result := find u d 0 in
  if result =? -1 then u else slice u 0 (result + len d).

(** No occurrence of a literal delimiter starts in the first [n] units of
    [u]. *)
Definition noocc (d : Delimiter) (u : str) (n : nat) : Prop :=
  match d with
  | Literal l => forall k, (k < n)%nat -> occ l u k = false
  | Pattern _ => True
  end.

(** The state at the head of the loop, for the input [u] that starts at
    the cursor. *)
Record loop_inv (d : Delimiter) (u : str) (w : World)
    (buf : str) (idx search_idx : Z) : Prop := mk_loop_inv {
  li_delim : delim_ok d;
  li_open : fclosed (file w) = false;
  li_fpos : 0 <= fpos (file w);
  li_fobj : _fobj (self w) = Some Fobj;
  li_bs : 0 < buffer_size (self w);
  li_eof : _eof (self w) = true -> remaining (file w) = [];
  li_idx : 0 <= idx <= search_idx /\ search_idx <= len buf;
  li_rest : slice_from buf idx ++ remaining (file w) = u;
  li_noocc : noocc d u (Z.to_nat (search_idx - idx))
}.

(** What [_next] hands back, for the input [u] that started at the
    cursor. *)
Record next_post (d : Delimiter) (u : str) (w : World)
    (buf : str) (ms me : Z) (w' : World) : Prop := mk_next_post {
  np_self : self w' = self (set_eof w (_eof (self w')));
  np_data : data (file w') = data (file w);
  np_open : fclosed (file w') = false;
  np_fpos : 0 <= fpos (file w');
  np_range : 0 <= ms <= me /\ me <= len buf;
  np_rest : slice_from buf ms ++ remaining (file w') = u;
  np_eof : _eof (self w') = true -> remaining (file w') = [];
  np_record :
    match d with
    | Literal l => slice buf ms me = first_record l u
    | Pattern _ => True
    end;
  np_again :
    match d with
    | Literal l =>
        forall w'', _eof (self w'') = _eof (self w') ->
                    _next_iter d w'' buf ms ms = (Return buf ms me, w'')
    | Pattern _ => True
    end;
  np_span :
    delim_nonempty d ->
    (u = [] /\ buf = [] /\ ms = 0 /\ me = 0) \/ ms < me
}.

(** A source that can be opened and read: an existing path, or an open file
    object at a valid position. *)
Definition src_ok (src : Src) : Prop :=
  match src with
  | Path content => content <> None
  | Handle f => fclosed f = false /\ 0 <= fpos f
  end.

(** The input the scanner will see. *)
Definition src_input (src : Src) : str :=
  match src with
  | Path (Some content) => content
  | Path None => []
  | Handle f => remaining f
  end.

(** The records of [u], each found by one search of all that is left. *)
Fixpoint split_records (fuel : nat) (d u : str) : list str :=
  match fuel with
  | O => []
  | S fuel' =>
      match u with
      | [] => []
      | _ :: _ =>
          let r := first_record d u in
          r :: split_records fuel' d (skipn (length r) u)
      end
  end.

(** [r] ends with [d]. *)
Definition endswith (d r : str) : Prop := exists p, r = p ++ d.

(** ** Example inputs and matchers *)

Definition str_of (x : string) : str := list_ascii_of_string x.

Definition newline : str := ["010"%char].

(** An open [io.StringIO(content)]. *)
Definition string_io (content : str) : File := mkFile content 0 false.

(** The scanner right after [ReadLines(io.StringIO("abc-=-def"),
    delimiter="-=-", buffer_size=4)]: the first chunk ends inside the
    delimiter, which covers offsets 3 to 5. *)
Definition split_scanner : World :=
  mkWorld (mkFile (str_of "abc-=-def") 4 false)
    (mkReadLines false (Some Fobj) false 0 4 (str_of "abc-") 0 false
       (Literal (str_of "-=-"))).

(** Two worlds with the same file content and handle state, and scanners
    that differ at most in buffer, cursor and end-of-source flag. *)
Definition same_config (w w' : World) : Prop :=
  data (file w') = data (file w) /\
  fclosed (file w') = fclosed (file w) /\
  _closed (self w') = _closed (self w) /\
  _fobj (self w') = _fobj (self w) /\
  _managed (self w') = _managed (self w) /\
  _start (self w') = _start (self w) /\
  buffer_size (self w') = buffer_size (self w) /\
  delimiter (self w') = delimiter (self w).

Fixpoint run_length (c : ascii) (s : str) : nat :=
  match s with
  | x :: t => if Ascii.eqb x c then S (run_length c t) else O
  | [] => O
  end.

Fixpoint search_run_aux (c : ascii) (s : str) (i : Z) : option (Z * Z) :=
  match s with
  | [] => None
  | x :: t =>
      if Ascii.eqb x c then Some (i, i + Z.of_nat (run_length c s))
      else search_run_aux c t (i + 1)
  end.

(** [re.compile(c + "+").search(buf, pos)]: the first maximal run of [c] at
    or after [pos]. *)
Definition search_run (c : ascii) (buf : str) (pos : Z) : option (Z * Z) :=
  let pos := Z.max 0 (Z.min pos (len buf)) in
  search_run_aux c (skipn (Z.to_nat pos) buf) pos.

(** The scanner right after [ReadLines(io.StringIO("xxaaaaab"),
    delimiter=re.compile("a+"), buffer_size=5)]: the buffer ["xxaaa"] ends
    in a run that goes on in the next chunk. *)
Definition run_scanner : World :=
  mkWorld (mkFile (str_of "xxaaaaab") 5 false)
    (mkReadLines false (Some Fobj) false 0 5 (str_of "xxaaa") 0 false
       (Pattern (search_run "a"%char))).

Definition tilde_lines : str :=
  str_of "a~" ++ newline ++ str_of "b~" ++ newline ++ str_of "c~" ++ newline.



(** The scanner after [n] calls of [__next__], whatever they returned. *)
Fixpoint advance (n : nat) (w : World) : World :=
  match n with
  | O => w
  | S n' => advance n' (snd (__next__ w))
  end.

(** * The other functions of the module *)

(** ** [line_count] *)


(** ** [is_ascii] *)

(** The value of a byte, as iterating a [bytes] object gives it. *)
Definition byte_value (c : ascii) : Z := Z.of_nat (nat_of_ascii c).

(** The test of line 145. *)
Definition not_ascii_text (elem : Z) : bool :=
  ((elem <? 32) || (126 <? elem)) && negb ((elem =? 10) || (elem =? 13)).

(** [for off, elem in enumerate(data)], from offset [off] on: the first
    offset and value that fail the test. *)
Fixpoint is_ascii_chunk (data : str) (off : Z) : option (Z * Z) :=
  match data with
  | [] => None
  | c :: t =>
      let elem := byte_value c in
      if not_ascii_text elem then Some (off, elem)
      else is_ascii_chunk t (off + 1)
  end.

(** The [while data] loop.  The result is the value returned and, when
    [print_error] is set, the value and the index that are printed to
    [stderr]; the encoding guess printed after them is the answer of the
    [chardet] library and is not modelled. *)
Fixpoint is_ascii_loop (fuel : nat) (f : File) (buffer_size : Z)
    (print_error : bool) (data : str) (seg : Z)
  : outcome (bool * option (Z * Z)) :=
  if is_empty data then Ok (true, None)
  else
    match is_ascii_chunk data 0 with
    | Some (off, elem) =>
        Ok (false,
            if print_error then Some (elem, seg * buffer_size + off)
            else None)
    | None =>
        match fuel with
        | O => Diverge
        | S fuel' =>
            match fobj_read f buffer_size with
            | (Some data', f') =>
                is_ascii_loop fuel' f' buffer_size print_error data' (seg + 1)
            | (None, _) => Raise ValueError
            end
        end
    end.

Definition is_ascii (file_name : option str) (print_error : bool)
    (buffer_size : Z) : outcome (bool * option (Z * Z)) :=
  match open_file file_name with
  | Ok fobj =>
      match fobj_read fobj buffer_size with
      | (Some data, f) =>
          is_ascii_loop (S (length (remaining f))) f buffer_size print_error
            data 0
      | (None, _) => Raise ValueError
      end
  | Raise e => Raise e
  | Diverge => Diverge
  end.

(** ** [md5sum] and [sha256sum] *)

(** A hash object of [hashlib]: its state, [update] and [hexdigest]. *)
Record HashAlg := mkHashAlg {
  hstate : Type;
  h_new : hstate;
  h_update : hstate -> str -> hstate;
  h_hexdigest : hstate -> str
}.

(** The contract of [hashlib]: repeated calls of [update] are equivalent to
    one call with the concatenation of the arguments. *)
Definition hash_laws (alg : HashAlg) : Prop :=
  (forall h, h_update alg h [] = h) /\
  (forall h a b, h_update alg (h_update alg h a) b = h_update alg h (a ++ b)).

(** The [while data] loop of both functions. *)
Fixpoint hash_loop (alg : HashAlg) (fuel : nat) (f : File) (buffer_size : Z)
    (hsh : hstate alg) (data : str) : outcome (hstate alg) :=
  if is_empty data then Ok hsh
  else
    match fuel with
    | O => Diverge
    | S fuel' =>
        let hsh := h_update alg hsh data in
        match fobj_read f buffer_size with
        | (Some data', f') => hash_loop alg fuel' f' buffer_size hsh data'
        | (None, _) => Raise ValueError
        end
    end.

Definition md5sum (md5 : HashAlg) (file_name : option str) (buffer_size : Z)
  : outcome str :=
  let hsh := h_new md5 in
  match open_file file_name with
  | Ok fobj =>
      match fobj_read fobj buffer_size with
      | (Some data, f) =>
          match hash_loop md5 (S (length (remaining f))) f buffer_size hsh
                  data with
          | Ok hsh => Ok (h_hexdigest md5 hsh)
          | Raise e => Raise e
          | Diverge => Diverge
          end
      | (None, _) => Raise ValueError
      end
  | Raise e => Raise e
  | Diverge => Diverge
  end.

Definition sha256sum (sha256 : HashAlg) (file_name : option str)
    (buffer_size : Z) : outcome str :=
  let hsh := h_new sha256 in
  match open_file file_name with
  | Ok fobj =>
      match fobj_read fobj buffer_size with
      | (Some data, f) =>
          match hash_loop sha256 (S (length (remaining f))) f buffer_size hsh
                  data with
          | Ok hsh => Ok (h_hexdigest sha256 hsh)
          | Raise e => Raise e
          | Diverge => Diverge
          end
      | (None, _) => Raise ValueError
      end
  | Raise e => Raise e
  | Diverge => Diverge
  end.

(** ** More vocabulary and examples *)

(** A hash object that keeps what it was fed: the simplest one that meets
    [hash_laws]. *)
Definition keep_all : HashAlg :=
  mkHashAlg str [] (fun h a => h ++ a) (fun h => h).

(** The units that [is_ascii] accepts: printable ASCII, line feed and
    carriage return. *)
Definition ascii_text (c : ascii) : bool :=
  negb (not_ascii_text (byte_value c)).



(** The unread part of the buffer. *)
Definition surplus (w : World) : Z := len (_buf (self w)) - _idx (self w).

(** [re.compile(c + "*").search(buf, pos)]: the run of [c] at [pos], which
    may be empty. *)
Definition search_star (c : ascii) (buf : str) (pos : Z) : option (Z * Z) :=
  let pos := Z.max 0 (Z.min pos (len buf)) in
  Some (pos, pos + Z.of_nat (run_length c (skipn (Z.to_nat pos) buf))).

(** The scanner over ["bab"] with the pattern [b*], after the record ["b"]
    was returned. *)
Definition stalled_scanner : World :=
  mkWorld (mkFile (str_of "bab") 3 false)
    (mkReadLines false (Some Fobj) false 0 8 (str_of "bab") 1 false
       (Pattern (search_star "b"%char))).

(** * Properties *)

(** ** Sequences *)

Lemma len_nonneg (s : str) : 0 <= len s.
Proof. unfold len; lia. Qed.

Lemma len_app (a b : str) : len (a ++ b) = len a + len b.
Proof. unfold len; rewrite length_app; lia. Qed.

Lemma len_nil : len [] = 0.
Proof. reflexivity. Qed.

Lemma len_zero (s : str) : len s = 0 -> s = [].
Proof. destruct s; [reflexivity | unfold len; simpl; lia]. Qed.

Lemma is_empty_true (s : str) : is_empty s = true -> s = [].
Proof. destruct s; [reflexivity | discriminate]. Qed.

Lemma is_empty_false (s : str) : is_empty s = false -> s <> [].
Proof. destruct s; [discriminate | congruence]. Qed.

Lemma clamp_id (n i : Z) : 0 <= i <= n -> clamp n i = i.
Proof.
  intros H; unfold clamp.
  destruct (Z.ltb_spec i 0); lia.
Qed.


Lemma slice_from_nat (s : str) (a : Z) :
  0 <= a <= len s -> slice_from s a = skipn (Z.to_nat a) s.
Proof.
  intros H; unfold slice_from; now rewrite clamp_id.
Qed.

Lemma slice_nat (s : str) (a b : Z) :
  0 <= a <= b -> b <= len s ->
  slice s a b = firstn (Z.to_nat (b - a)) (skipn (Z.to_nat a) s).
Proof.
  intros H1 H2; unfold slice.
  rewrite !clamp_id by lia; reflexivity.
Qed.

Lemma slice_to_end (s : str) (a : Z) :
  0 <= a <= len s -> slice s a (len s) = slice_from s a.
Proof.
  intros H; rewrite slice_nat, slice_from_nat by lia.
  apply firstn_all2. rewrite length_skipn. unfold len in *; lia.
Qed.

Lemma slice_from_zero (s : str) : slice_from s 0 = s.
Proof.
  rewrite slice_from_nat; [reflexivity | pose proof (len_nonneg s); lia].
Qed.

(** ** Occurrences of a literal *)

Lemma startswith_app (sub t : str) : startswith sub (sub ++ t) = true.
Proof.
  induction sub as [|c sub IH]; simpl; [reflexivity|].
  now rewrite Ascii.eqb_refl, IH.
Qed.

Lemma startswith_split (sub s : str) :
  startswith sub s = true -> s = sub ++ skipn (length sub) s.
Proof.
  revert s; induction sub as [|c sub IH]; intros [|d s] H; simpl in *;
    try reflexivity; try discriminate.
  apply andb_true_iff in H as [Hc Hs].
  apply Ascii.eqb_eq in Hc; subst d.
  f_equal; now apply IH.
Qed.

Lemma startswith_length (sub s : str) :
  startswith sub s = true -> (length sub <= length s)%nat.
Proof.
  intros H; apply startswith_split in H.
  rewrite H, length_app; lia.
Qed.

Lemma startswith_app_l (sub s t : str) :
  (length sub <= length s)%nat ->
  startswith sub (s ++ t) = startswith sub s.
Proof.
  revert s; induction sub as [|c sub IH]; intros [|d s] H; simpl in *;
    try reflexivity; try lia.
  rewrite IH by lia; reflexivity.
Qed.

Lemma occ_length (sub s : str) (k : nat) :
  occ sub s k = true -> (k + length sub <= length s)%nat \/ sub = [].
Proof.
  unfold occ; intros H. apply startswith_length in H.
  rewrite length_skipn in H.
  destruct sub; [now right | left; simpl in *; lia].
Qed.

Lemma occ_app (sub s t : str) (k : nat) :
  (k + length sub <= length s)%nat -> occ sub (s ++ t) k = occ sub s k.
Proof.
  intros H; unfold occ.
  rewrite skipn_app.
  replace (k - length s)%nat with 0%nat by lia; simpl.
  apply startswith_app_l. rewrite length_skipn; lia.
Qed.

Lemma occ_skipn (sub s : str) (i k : nat) :
  occ sub (skipn i s) k = occ sub s (i + k).
Proof.
  unfold occ. rewrite skipn_skipn. f_equal. f_equal. lia.
Qed.

Lemma find_aux_spec (sub s : str) (i : Z) :
  0 <= i ->
  (find_aux sub s i = -1 /\
   forall k, (k <= length s)%nat -> occ sub s k = false) \/
  (exists k, (k <= length s)%nat /\ find_aux sub s i = i + Z.of_nat k /\
             occ sub s k = true /\
             forall j, (j < k)%nat -> occ sub s j = false).
Proof.
  revert i; induction s as [|c s IH]; intros i Hi; simpl.
  - destruct (startswith sub []) eqn:E.
    + right; exists 0%nat.
      split; [lia|]. split; [simpl; lia|]. split; [exact E|].
      intros j Hj; lia.
    + left; split; [reflexivity|].
      intros k Hk. unfold occ. now rewrite skipn_nil.
  - destruct (startswith sub (c :: s)) eqn:E.
    + right; exists 0%nat.
      split; [lia|]. split; [simpl; lia|]. split; [exact E|].
      intros j Hj; lia.
    + destruct (IH (i + 1)) as [[Hr Hno] | (k & Hk & Hr & Hocc & Hno)];
        [lia| |].
      * left; split; [exact Hr|].
        intros [|k] Hk; [exact E|]. apply Hno. lia.
      * right; exists (S k).
        split; [lia|]. split; [rewrite Hr; lia|]. split; [exact Hocc|].
        intros [|j] Hj; [exact E|]. apply Hno; lia.
Qed.

Lemma find_spec (s sub : str) (start : Z) :
  0 <= start <= len s ->
  (find s sub start = -1 /\
   forall k, (Z.to_nat start <= k <= length s)%nat -> occ sub s k = false) \/
  (exists k, (Z.to_nat start <= k <= length s)%nat /\
             find s sub start = Z.of_nat k /\ occ sub s k = true /\
             forall j, (Z.to_nat start <= j < k)%nat -> occ sub s j = false).
Proof.
  intros H; unfold find.
  destruct (Z.ltb_spec start 0) as [Hneg|_]; [lia|].
  destruct (Z.ltb_spec (len s) start) as [Hover|_]; [lia|].
  assert (Hn : (Z.to_nat start <= length s)%nat) by (unfold len in H; lia).
  destruct (find_aux_spec sub (skipn (Z.to_nat start) s) start)
    as [[Hr Hno] | (k & Hk & Hr & Hocc & Hno)]; [lia| |].
  - left; split; [exact Hr|].
    intros k Hk.
    replace k with (Z.to_nat start + (k - Z.to_nat start))%nat by lia.
    rewrite <- occ_skipn. apply Hno. rewrite length_skipn; lia.
  - rewrite length_skipn in Hk.
    right; exists (Z.to_nat start + k)%nat; repeat split; try lia.
    + rewrite <- occ_skipn; exact Hocc.
    + intros j Hj.
      replace j with (Z.to_nat start + (j - Z.to_nat start))%nat by lia.
      rewrite <- occ_skipn. apply Hno; lia.
Qed.

(** The result of [find] is determined by where the first occurrence is. *)
Lemma find_first (s sub : str) (start : Z) (k : nat) :
  0 <= start -> (Z.to_nat start <= k <= length s)%nat ->
  occ sub s k = true ->
  (forall j, (Z.to_nat start <= j < k)%nat -> occ sub s j = false) ->
  find s sub start = Z.of_nat k.
Proof.
  intros Hs Hk Hocc Hno.
  destruct (find_spec s sub start) as [[_ Hno'] | (k' & Hk' & Hr & Hocc' & Hno')].
  - unfold len; lia.
  - rewrite Hno' in Hocc by lia; discriminate.
  - rewrite Hr. f_equal.
    destruct (Nat.lt_trichotomy k k') as [Hlt | [Heq | Hgt]]; [|exact (eq_sym Heq)|].
    + rewrite Hno' in Hocc by lia; discriminate.
    + rewrite Hno in Hocc' by lia; discriminate.
Qed.

Lemma find_none (s sub : str) (start : Z) :
  0 <= start <= len s ->
  (forall k, (Z.to_nat start <= k <= length s)%nat -> occ sub s k = false) ->
  find s sub start = -1.
Proof.
  intros Hs Hno.
  destruct (find_spec s sub start) as [[Hr _] | (k' & Hk' & Hr & Hocc' & _)];
    [lia | exact Hr |].
  rewrite Hno in Hocc' by lia; discriminate.
Qed.

(** ** The file object *)

Lemma remaining_nat (f : File) :
  0 <= fpos f ->
  remaining f = skipn (Z.to_nat (Z.min (fpos f) (len (data f)))) (data f).
Proof.
  intros H; unfold remaining, slice_from, clamp.
  destruct (Z.ltb_spec (fpos f) 0); [lia | reflexivity].
Qed.

(** On an open file, [read(size)] with [0 <= size] hands out the next
    [size] units, or all that is left when there are fewer. *)
Lemma fobj_read_ok (f : File) (size : Z) :
  fclosed f = false -> 0 <= fpos f -> 0 <= size ->
  exists f',
    fobj_read f size = (Some (firstn (Z.to_nat size) (remaining f)), f') /\
    remaining f' = skipn (Z.to_nat size) (remaining f) /\
    data f' = data f /\ fclosed f' = false /\ fpos f <= fpos f'.
Proof.
  intros Hc Hp Hs. unfold fobj_read. rewrite Hc.
  destruct (Z.ltb_spec size 0) as [Hneg|_]; [lia|].
  set (n := Z.min size (Z.max 0 (len (data f) - fpos f))).
  pose proof (len_nonneg (data f)) as Hl.
  assert (Hn : 0 <= n) by (unfold n; lia).
  exists (mkFile (data f) (fpos f + n) false).
  split; [|split; [|split; [reflexivity|split; [reflexivity|simpl; lia]]]].
  - fold n. f_equal. f_equal.
    rewrite remaining_nat by exact Hp.
    unfold slice, clamp.
    destruct (Z.ltb_spec (fpos f) 0) as [?|_]; [lia|].
    destruct (Z.ltb_spec (fpos f + n) 0) as [?|_]; [lia|].
    destruct (Z.le_gt_cases (fpos f) (len (data f))) as [Hin|Hout].
    + rewrite (Z.min_l (fpos f)) by lia.
      rewrite (Z.min_l (fpos f + n)) by (unfold n; lia).
      replace (fpos f + n - fpos f) with n by lia.
      destruct (Z.le_gt_cases size (len (data f) - fpos f)) as [Hle|Hgt].
      * unfold n. rewrite Z.min_l by lia. reflexivity.
      * unfold n. rewrite Z.min_r by lia.
        rewrite !firstn_all2; [reflexivity | |];
          rewrite length_skipn; unfold len in *; lia.
    + rewrite !Z.min_r by lia.
      rewrite skipn_all2 by (unfold len in *; lia).
      rewrite !firstn_nil. reflexivity.
  - rewrite !remaining_nat by (simpl; lia). simpl.
    rewrite skipn_skipn.
    destruct (Z.le_gt_cases (fpos f) (len (data f))) as [Hin|Hout].
    + destruct (Z.le_gt_cases size (len (data f) - fpos f)) as [Hle|Hgt].
      * f_equal. unfold n; lia.
      * rewrite !skipn_all2; [reflexivity | |]; unfold n, len in *; lia.
    + rewrite !skipn_all2; [reflexivity | |]; unfold n, len in *; lia.
Qed.

(** ** One refill *)

Lemma set_eof_set_eof (w : World) (a b : bool) :
  set_eof (set_eof w a) b = set_eof w b.
Proof. reflexivity. Qed.

Lemma set_eof_same (w : World) : set_eof w (_eof (self w)) = w.
Proof. destruct w as [f []]; reflexivity. Qed.

Lemma _next_refill_eof (w : World) (buf : str) (idx off : Z) :
  _eof (self w) = true ->
  _next_refill w buf idx off =
  (if idx <? len buf then Return buf idx (len buf) else Return [] 0 0, w).
Proof.
  intros H; unfold _next_refill; rewrite H.
  destruct (idx <? len buf); reflexivity.
Qed.

(** With the source not known to be exhausted, the consumed prefix is
    dropped, one chunk is read, and the search resumes [off] units before
    the end of what was kept. *)
Lemma _next_refill_more (w : World) (buf : str) (idx off : Z) :
  _eof (self w) = false ->
  fclosed (file w) = false -> 0 <= fpos (file w) ->
  _fobj (self w) = Some Fobj -> 0 <= buffer_size (self w) ->
  let more := firstn (Z.to_nat (buffer_size (self w))) (remaining (file w)) in
  exists w',
    _next_refill w buf idx off =
    (Continue (slice_from buf idx ++ more) 0
       (Z.max 0 (len (slice_from buf idx) - off)), w') /\
    remaining (file w') =
      skipn (Z.to_nat (buffer_size (self w))) (remaining (file w)) /\
    data (file w') = data (file w) /\
    fclosed (file w') = false /\
    fpos (file w) <= fpos (file w') /\
    self w' = self (set_eof w (is_empty more)).
Proof.
  intros He Hc Hp Hf Hb more.
  destruct (fobj_read_ok (file w) (buffer_size (self w)) Hc Hp Hb)
    as (f' & Hr & Hrem & Hd & Hc' & Hp').
  unfold _next_refill. rewrite He, Hf, Hr. fold more.
  assert (Hmax : (if len (slice_from buf idx) - off <? 0 then 0
                  else len (slice_from buf idx) - off)
                 = Z.max 0 (len (slice_from buf idx) - off)).
  { destruct (Z.ltb_spec (len (slice_from buf idx) - off) 0); lia. }
  rewrite Hmax.
  destruct (is_empty more) eqn:Em.
  - exists (set_eof (set_file w f') true).
    split; [reflexivity|]. do 4 (split; [assumption|]). reflexivity.
  - exists (set_file w f').
    split; [reflexivity|]. do 4 (split; [assumption|]).
    destruct w as [f0 s0]; destruct s0; simpl in *. now rewrite He.
Qed.

(** ** The search loop *)

Lemma occ_buf_rest (l buf rest : str) (i k : nat) :
  (i + k + length l <= length buf)%nat ->
  occ l (skipn i buf ++ rest) k = occ l buf (i + k).
Proof.
  intros H. rewrite occ_app by (rewrite length_skipn; lia).
  apply occ_skipn.
Qed.

Lemma occ_nil (s : str) (k : nat) : occ [] s k = true.
Proof. reflexivity. Qed.

Lemma slice_nil (a b : Z) : slice [] a b = [].
Proof. unfold slice. rewrite skipn_nil. apply firstn_nil. Qed.

Lemma first_record_nil (l : str) : first_record l [] = [].
Proof.
  unfold first_record. destruct (find [] l 0 =? -1); [reflexivity|].
  apply slice_nil.
Qed.

Lemma first_record_found (l u : str) (k : nat) :
  (k + length l <= length u)%nat ->
  occ l u k = true ->
  (forall j, (j < k)%nat -> occ l u j = false) ->
  first_record l u = firstn (k + length l) u.
Proof.
  intros Hk Hocc Hno. unfold first_record.
  rewrite (find_first u l 0 k); try lia; try assumption.
  - destruct (Z.eqb_spec (Z.of_nat k) (-1)) as [E|_]; [lia|].
    rewrite slice_nat by (unfold len; lia).
    simpl. f_equal. unfold len; lia.
  - intros j Hj; apply Hno; lia.
Qed.

Lemma first_record_none (l u : str) :
  (forall k, (k <= length u)%nat -> occ l u k = false) ->
  first_record l u = u.
Proof.
  intros Hno. unfold first_record.
  rewrite find_none; [reflexivity | pose proof (len_nonneg u); lia |].
  intros k Hk; apply Hno; lia.
Qed.

(** The search found the literal in the buffer. *)
Lemma literal_found_post (l u : str) (w : World) (buf : str)
    (idx search_idx : Z) :
  loop_inv (Literal l) u w buf idx search_idx ->
  find buf l search_idx <> -1 ->
  next_post (Literal l) u w buf idx (find buf l search_idx + len l) w.
Proof.
  intros [_ Ho Hp Hf Hb He [Hi1 Hi2] Hrest Hno] Hfound.
  simpl in Hno.
  destruct (find_spec buf l search_idx) as [[Hr _] | (k & Hk & Hr & Hocc & Hno')];
    [lia | contradiction |].
  rewrite Hr. clear Hfound.
  assert (Hfit : (k + length l <= length buf)%nat).
  { destruct (occ_length _ _ _ Hocc) as [H|H]; [exact H | subst l; simpl; lia]. }
  rewrite slice_from_nat in Hrest by lia.
  set (i := Z.to_nat idx) in *.
  assert (Hik : (i <= k)%nat) by (unfold i; lia).
  assert (Hu_occ : occ l u (k - i) = true).
  { rewrite <- Hrest, occ_buf_rest by lia.
    replace (i + (k - i))%nat with k by lia. exact Hocc. }
  assert (Hu_no : forall j, (j < k - i)%nat -> occ l u j = false).
  { intros j Hj.
    destruct (Nat.lt_ge_cases j (Z.to_nat (search_idx - idx))) as [Hlt|Hge].
    - apply Hno; exact Hlt.
    - rewrite <- Hrest, occ_buf_rest by lia. apply Hno'. unfold i; lia. }
  assert (Hlen_u : (k - i + length l <= length u)%nat).
  { rewrite <- Hrest, length_app, length_skipn. lia. }
  constructor.
  - now rewrite set_eof_same.
  - reflexivity.
  - exact Ho.
  - exact Hp.
  - unfold len; lia.
  - rewrite slice_from_nat by lia. exact Hrest.
  - exact He.
  - rewrite (first_record_found l u (k - i)) by assumption.
    rewrite slice_nat by (unfold len; lia).
    rewrite <- Hrest, firstn_app.
    replace (k - i + length l - length (skipn i buf))%nat with 0%nat
      by (rewrite length_skipn; lia).
    rewrite firstn_O, app_nil_r. fold i. f_equal. unfold len, i; lia.
  - intros w'' _. unfold _next_iter.
    rewrite (find_first buf l idx k); try lia; try assumption.
    + destruct (Z.eqb_spec (Z.of_nat k) (-1)) as [E|_]; [lia | reflexivity].
    + fold i. intros j Hj.
      replace j with (i + (j - i))%nat by lia.
      rewrite <- (occ_buf_rest l buf (remaining (file w))) by lia.
      rewrite Hrest. apply Hu_no. lia.
  - simpl. intros Hne. right.
    assert (length l <> 0%nat) by (destruct l; simpl; congruence).
    unfold len; lia.
Qed.

(** A failed search of the buffer, together with what the earlier passes
    excluded, leaves no occurrence that lies inside the buffer. *)
Lemma literal_missing (l u : str) (w : World) (buf : str)
    (idx search_idx : Z) :
  loop_inv (Literal l) u w buf idx search_idx ->
  find buf l search_idx = -1 ->
  l <> [] /\
  forall k, (Z.to_nat idx + k + length l <= length buf)%nat \/
            remaining (file w) = [] ->
            occ l u k = false.
Proof.
  intros [_ Ho Hp Hf Hb He [Hi1 Hi2] Hrest Hno] Hfail.
  simpl in Hno.
  destruct (find_spec buf l search_idx) as [[_ Hno'] | (k & Hk & Hr & _)];
    [lia | | lia].
  assert (Hl : l <> []).
  { intros ->. specialize (Hno' (Z.to_nat search_idx)).
    rewrite occ_nil in Hno'. unfold len in *.
    assert (true = false) by (apply Hno'; lia). discriminate. }
  split; [exact Hl|].
  rewrite slice_from_nat in Hrest by lia.
  set (i := Z.to_nat idx) in *.
  intros k Hk.
  destruct (Nat.lt_ge_cases k (Z.to_nat (search_idx - idx))) as [Hlt|Hge].
  { apply Hno; exact Hlt. }
  destruct (Nat.le_gt_cases (i + k + length l) (length buf)) as [Hfit|Hout].
  - rewrite <- Hrest, occ_buf_rest by lia. apply Hno'. clear Hk. subst i. lia.
  - destruct Hk as [Hk|Hk]; [lia|].
    rewrite Hk, app_nil_r in Hrest.
    destruct (occ l u k) eqn:E; [|reflexivity].
    destruct (occ_length _ _ _ E) as [H|H]; [|contradiction].
    rewrite <- Hrest, length_skipn in H.
    assert (length l <> 0%nat) by (destruct l; simpl; congruence). lia.
Qed.

(** The search found nothing final and the source is exhausted. *)
Lemma refill_eof_post (d : Delimiter) (u : str) (w : World) (buf : str)
    (idx search_idx off : Z) :
  loop_inv d u w buf idx search_idx ->
  _eof (self w) = true ->
  match d with
  | Literal l => find buf l search_idx = -1
  | Pattern _ => True
  end ->
  exists b ms me,
    _next_refill w buf idx off = (Return b ms me, w) /\
    next_post d u w b ms me w.
Proof.
  intros Hinv Heof Hfail.
  pose proof Hinv as [Hd Ho Hp Hf Hb He [Hi1 Hi2] Hrest Hno].
  rewrite _next_refill_eof by exact Heof.
  pose proof (He Heof) as Hrem.
  rewrite Hrem, app_nil_r in Hrest.
  rewrite slice_from_nat in Hrest by lia.
  assert (Hlit : match d with
                 | Literal l =>
                     l <> [] /\ forall k, occ l u k = false
                 | Pattern _ => True
                 end).
  { destruct d as [l|p]; [|exact I].
    destruct (literal_missing _ _ _ _ _ _ Hinv Hfail) as [Hl Hk].
    split; [exact Hl|]. intros k; apply Hk. now right. }
  destruct (Z.ltb_spec idx (len buf)) as [Hlt|Hge].
  - exists buf, idx, (len buf). split; [reflexivity|].
    constructor.
    + now rewrite set_eof_same.
    + reflexivity.
    + exact Ho.
    + exact Hp.
    + lia.
    + rewrite slice_from_nat by lia. now rewrite Hrem, app_nil_r.
    + exact He.
    + destruct d as [l|p]; [|exact I].
      destruct Hlit as [_ Hk].
      rewrite first_record_none by (intros; apply Hk).
      rewrite slice_to_end, slice_from_nat by lia. exact Hrest.
    + destruct d as [l|p]; [|exact I].
      destruct Hlit as [_ Hk].
      intros w'' Hw. unfold _next_iter.
      rewrite find_none.
      * simpl. rewrite _next_refill_eof by congruence.
        destruct (Z.ltb_spec idx (len buf)); [reflexivity | lia].
      * lia.
      * intros k Hk'.
        replace k with (Z.to_nat idx + (k - Z.to_nat idx))%nat by lia.
        rewrite <- occ_skipn, Hrest. apply Hk.
    + intros _. right. exact Hlt.
  - assert (Hu : u = []).
    { rewrite <- Hrest. apply skipn_all2. unfold len in *; lia. }
    exists [], 0, 0. split; [reflexivity|].
    constructor.
    + now rewrite set_eof_same.
    + reflexivity.
    + exact Ho.
    + exact Hp.
    + rewrite len_nil; lia.
    + rewrite slice_from_zero, Hrem. simpl. now rewrite Hu.
    + exact He.
    + destruct d as [l|p]; [|exact I].
      rewrite slice_nil, Hu. symmetry; apply first_record_nil.
    + destruct d as [l|p]; [|exact I].
      destruct Hlit as [Hl _].
      intros w'' Hw. unfold _next_iter.
      rewrite find_none.
      * simpl. rewrite _next_refill_eof by congruence. reflexivity.
      * rewrite len_nil; lia.
      * intros k Hk. unfold occ. rewrite skipn_nil.
        destruct l; [contradiction | reflexivity].
    + intros _. left. repeat split; assumption.
Qed.

(** The search found nothing final and the source may have more: the state
    after the refill is again a loop state for the same input, and the
    measure that bounds the loop went down. *)
Lemma refill_more_inv (d : Delimiter) (u : str) (w : World) (buf : str)
    (idx search_idx off : Z) :
  loop_inv d u w buf idx search_idx ->
  _eof (self w) = false ->
  match d with
  | Literal l => find buf l search_idx = -1 /\ off = len l - 1
  | Pattern _ => 0 <= off
  end ->
  exists w' buf' search_idx',
    _next_refill w buf idx off = (Continue buf' 0 search_idx', w') /\
    loop_inv d u w' buf' 0 search_idx' /\
    self w' = self (set_eof w (_eof (self w'))) /\
    data (file w') = data (file w) /\
    (length (remaining (file w')) + (if _eof (self w') then 1 else 2)
     <= length (remaining (file w)) + 1)%nat.
Proof.
  intros Hinv Heof Hoff.
  pose proof Hinv as [Hd Ho Hp Hf Hb He [Hi1 Hi2] Hrest Hno].
  destruct (_next_refill_more w buf idx off Heof Ho Hp Hf ltac:(lia))
    as (w' & Hstep & Hrem & Hdata & Ho' & Hp' & Hself).
  set (more := firstn (Z.to_nat (buffer_size (self w))) (remaining (file w)))
    in *.
  assert (Heof' : _eof (self w') = is_empty more) by (now rewrite Hself).
  exists w', (slice_from buf idx ++ more),
    (Z.max 0 (len (slice_from buf idx) - off)).
  split; [exact Hstep|].
  assert (Hoff0 : 0 <= off).
  { destruct d as [l|p]; [|exact Hoff]. destruct Hoff as [Hfail ->].
    destruct (literal_missing _ _ _ _ _ _ Hinv Hfail) as [Hl _].
    destruct l; [contradiction | unfold len; cbn [length]; lia]. }
  pose proof (len_nonneg (slice_from buf idx)) as Hlen0.
  rewrite slice_from_nat in * by lia.
  set (i := Z.to_nat idx) in *.
  split; [|split; [|split]].
  - constructor.
    + exact Hd.
    + exact Ho'.
    + lia.
    + now rewrite Hself.
    + now rewrite Hself.
    + rewrite Heof', Hrem. intros Hm. apply is_empty_true in Hm.
      unfold more in Hm.
      destruct (remaining (file w)) as [|c r]; [now rewrite skipn_nil|].
      destruct (Z.to_nat (buffer_size (self w))) eqn:En; [lia | discriminate].
    + rewrite len_app. pose proof (len_nonneg more). lia.
    + rewrite slice_from_zero, <- app_assoc, Hrem. unfold more.
      now rewrite firstn_skipn.
    + destruct d as [l|p]; [|exact I]. destruct Hoff as [Hfail ->].
      destruct (literal_missing _ _ _ _ _ _ Hinv Hfail) as [Hl Hk].
      intros k Hk'. apply Hk. left. fold i.
      unfold len in *. rewrite length_skipn in *. lia.
  - rewrite Hself. reflexivity.
  - exact Hdata.
  - rewrite Heof', Hrem, length_skipn.
    destruct (is_empty more) eqn:Em; [lia|].
    apply is_empty_false in Em. unfold more in Em.
    destruct (remaining (file w)) as [|c r]; [now rewrite firstn_nil in Em|].
    destruct (Z.to_nat (buffer_size (self w))) eqn:En; [|simpl; lia].
    now rewrite firstn_O in Em.
Qed.

Lemma self_set_eof_trans (w w' : World) (a b : bool) :
  self w' = self (set_eof w a) -> self (set_eof w' b) = self (set_eof w b).
Proof. intros H. unfold set_eof in *. simpl in *. now rewrite H. Qed.

Lemma next_post_trans (d : Delimiter) (u : str) (w w' w'' : World)
    (b : str) (ms me : Z) :
  self w' = self (set_eof w (_eof (self w'))) ->
  data (file w') = data (file w) ->
  next_post d u w' b ms me w'' -> next_post d u w b ms me w''.
Proof.
  intros Hs Hd [H1 H2 H3 H4 H5 H6 H7 H8 H9 H10].
  constructor; try assumption.
  - rewrite H1. eapply self_set_eof_trans; eassumption.
  - congruence.
Qed.

(** The loop of [_next], from any loop state and with enough fuel, returns
    a record that satisfies [next_post]. *)
Lemma _next_loop_spec (fuel : nat) :
  forall d u w buf idx search_idx,
    loop_inv d u w buf idx search_idx ->
    (length (remaining (file w)) + (if _eof (self w) then 1 else 2)
     <= fuel)%nat ->
    exists b ms me w',
      _next_loop fuel d w buf idx search_idx = (Ok (b, ms, me), w') /\
      next_post d u w b ms me w'.
Proof.
  induction fuel as [|fuel IH]; intros d u w buf idx search_idx Hinv Hfuel.
  { destruct (_eof (self w)); lia. }
  assert (Hrefill : forall off,
    match d with
    | Literal l => find buf l search_idx = -1 /\ off = len l - 1
    | Pattern _ => 0 <= off
    end ->
    exists b ms me w',
      match _next_refill w buf idx off with
      | (Return b s e, w') => (Ok (b, s, e), w')
      | (Fail e, w') => (Raise e, w')
      | (Continue buf' idx' search_idx', w') =>
          _next_loop fuel d w' buf' idx' search_idx'
      end = (Ok (b, ms, me), w') /\ next_post d u w b ms me w').
  { intros off Hoff.
    destruct (_eof (self w)) eqn:Heof.
    - destruct (refill_eof_post d u w buf idx search_idx off Hinv Heof)
        as (b & ms & me & Hr & Hpost).
      { destruct d; [apply Hoff | exact I]. }
      rewrite Hr. now exists b, ms, me, w.
    - destruct (refill_more_inv d u w buf idx search_idx off Hinv Heof Hoff)
        as (w' & buf' & sidx' & Hr & Hinv' & Hs & Hd & Hm).
      rewrite Hr.
      destruct (IH d u w' buf' 0 sidx' Hinv') as (b & ms & me & w'' & Hl & Hp);
        [lia|].
      exists b, ms, me, w''. split; [exact Hl|].
      eapply next_post_trans; eassumption. }
  simpl. unfold _next_iter.
  destruct d as [l|p].
  - destruct (Z.eqb_spec (find buf l search_idx) (-1)) as [Hfail|Hfound]; simpl.
    + apply Hrefill. now split.
    + exists buf, idx, (find buf l search_idx + len l), w.
      split; [reflexivity|]. now apply literal_found_post.
  - pose proof Hinv as [Hd Ho Hp Hf Hb He [Hi1 Hi2] Hrest Hno].
    destruct (p buf search_idx) as [[rs re]|] eqn:Es.
    + destruct (Hd buf search_idx rs re ltac:(lia) Es) as (Hm1 & Hm2 & Hm3).
      destruct (Z.eqb_spec (len buf) re) as [Hend|Hin]; simpl.
      * apply Hrefill. lia.
      * exists buf, idx, re, w. split; [reflexivity|].
        constructor; try assumption; try exact I; try lia.
        -- now rewrite set_eof_same.
        -- reflexivity.
        -- intros Hne. right. specialize (Hne _ _ _ _ Es). lia.
    + apply Hrefill. lia.
Qed.

(** ** [_next], [__next__] and [peek] on a well-formed scanner *)

Lemma wf_loop_inv (w : World) :
  wf w -> delim_ok (delimiter (self w)) ->
  loop_inv (delimiter (self w)) (unconsumed w) w
    (_buf (self w)) (_idx (self w)) (_idx (self w)).
Proof.
  intros [Ho Hp Hf Hb Hi He] Hd.
  constructor; try assumption; try lia; try reflexivity.
  rewrite Z.sub_diag. destruct (delimiter (self w)); simpl; [|exact I].
  intros k Hk; lia.
Qed.

Lemma _next_spec (w : World) :
  wf w -> delim_ok (delimiter (self w)) ->
  exists b ms me w',
    _next w = (Ok (b, ms, me), w') /\
    next_post (delimiter (self w)) (unconsumed w) w b ms me w'.
Proof.
  intros Hwf Hd. unfold _next.
  apply _next_loop_spec; [now apply wf_loop_inv|].
  unfold _next_fuel. destruct (_eof (self w)); lia.
Qed.

(** Storing the buffer that [_next] returned, with the cursor anywhere in
    the record, gives a well-formed scanner again. *)
Lemma next_post_store (d : Delimiter) (u : str) (w w' : World)
    (b : str) (ms me i : Z) :
  wf w -> next_post d u w b ms me w' -> ms <= i <= me ->
  wf (set_buf_idx w' b i) /\
  unconsumed (set_buf_idx w' b i) = skipn (Z.to_nat (i - ms)) u /\
  delimiter (self (set_buf_idx w' b i)) = delimiter (self w).
Proof.
  intros [Ho Hp Hf Hb Hi He] [H1 H2 H3 H4 [H5 H5'] H6 H7 _ _ _] Hi'.
  split; [|split].
  - constructor; simpl; try assumption; try lia.
    + now rewrite H1.
    + now rewrite H1.
  - unfold unconsumed; simpl.
    rewrite <- H6. rewrite !slice_from_nat by lia.
    rewrite skipn_app, skipn_skipn, length_skipn.
    replace (Z.to_nat (i - ms) - (length b - Z.to_nat ms))%nat with 0%nat
      by (unfold len in *; lia).
    simpl. f_equal. f_equal. lia.
  - simpl. now rewrite H1.
Qed.

(** [__next__] on a well-formed scanner: it returns the record that [_next]
    found and moves the cursor past it, or raises [StopIteration] when the
    match ends at offset 0. *)
Lemma __next___spec (w : World) :
  wf w -> delim_ok (delimiter (self w)) ->
  exists b ms me w1,
    next_post (delimiter (self w)) (unconsumed w) w b ms me w1 /\
    __next__ w =
      (if me =? 0 then Raise StopIteration else Ok (slice b ms me),
       set_buf_idx w1 b me) /\
    wf (set_buf_idx w1 b me) /\
    unconsumed (set_buf_idx w1 b me) =
      skipn (Z.to_nat (me - ms)) (unconsumed w) /\
    delimiter (self (set_buf_idx w1 b me)) = delimiter (self w).
Proof.
  intros Hwf Hd.
  destruct (_next_spec w Hwf Hd) as (b & ms & me & w1 & Hn & Hpost).
  exists b, ms, me, w1. split; [exact Hpost|].
  split.
  - unfold __next__. rewrite Hn. destruct (me =? 0); reflexivity.
  - pose proof (np_range _ _ _ _ _ _ _ Hpost) as [Hr _].
    apply (next_post_store _ _ _ _ _ _ _ _ Hwf Hpost). lia.
Qed.


(** ** Construction *)

Lemma __init___spec (src : Src) (d : Delimiter) (bs : Z) :
  src_ok src -> 0 < bs ->
  exists w,
    __init__ src d bs = Ok w /\ wf w /\
    unconsumed w = src_input src /\
    delimiter (self w) = d /\ buffer_size (self w) = bs /\
    _managed (self w) = is_path src /\ _closed (self w) = false.
Proof.
  intros Hsrc Hbs.
  assert (Hopen : exists f, open_src_file src = Ok (f, is_path src) /\
                            fclosed f = false /\ 0 <= fpos f /\
                            remaining f = src_input src).
  { destruct src as [[c|]|f]; simpl in *.
    - exists (mkFile c 0 false). repeat split; try reflexivity; try lia.
      unfold remaining; simpl. apply slice_from_zero.
    - congruence.
    - exists f. destruct Hsrc. repeat split; assumption. }
  destruct Hopen as (f & Hof & Hc & Hp & Hin).
  destruct (fobj_read_ok f bs Hc Hp ltac:(lia)) as (f' & Hr & Hrem & Hd & Hc' & Hp').
  unfold __init__, fobj_tell. rewrite Hof, Hc, Hr.
  eexists; split; [reflexivity|].
  split; [|split; [|repeat split]].
  - constructor; simpl; try assumption; try lia; try reflexivity.
    + rewrite len_nil || pose proof (len_nonneg (firstn (Z.to_nat bs) (remaining f))); lia.
    + intros He. apply is_empty_true in He. rewrite Hrem.
      destruct (remaining f) as [|c r]; [now rewrite skipn_nil|].
      destruct (Z.to_nat bs) eqn:En; [lia | discriminate].
  - unfold unconsumed; simpl. rewrite slice_from_zero, Hrem, firstn_skipn.
    exact Hin.
Qed.

(** ** Splitting the whole input *)

Lemma first_record_cases (l u : str) :
  (first_record l u = u /\ find u l 0 = -1) \/
  (exists k, (k + length l <= length u)%nat /\
             first_record l u = firstn (k + length l) u /\
             first_record l u = firstn k u ++ l).
Proof.
  destruct (find_spec u l 0) as [[Hr Hno] | (k & Hk & Hr & Hocc & Hno)].
  - pose proof (len_nonneg u); lia.
  - left. unfold first_record. rewrite Hr. now split.
  - right. exists k.
    assert (Hfit : (k + length l <= length u)%nat).
    { destruct (occ_length _ _ _ Hocc) as [H|H]; [exact H | subst l; simpl; lia]. }
    split; [exact Hfit|].
    rewrite (first_record_found l u k Hfit Hocc) by (intros; apply Hno; lia).
    split; [reflexivity|].
    unfold occ in Hocc. apply startswith_split in Hocc.
    rewrite <- (firstn_skipn k u) at 1. rewrite Hocc.
    rewrite firstn_app, firstn_all2 by (rewrite length_firstn; lia).
    rewrite length_firstn.
    replace (k + length l - Nat.min k (length u))%nat with (length l) by lia.
    rewrite firstn_app, Nat.sub_diag, firstn_O, app_nil_r.
    now rewrite firstn_all.
Qed.

Lemma first_record_prefix (l u : str) :
  first_record l u ++ skipn (length (first_record l u)) u = u.
Proof.
  destruct (first_record_cases l u) as [[H _] | (k & Hk & H & _)]; rewrite H.
  - rewrite skipn_all. apply app_nil_r.
  - rewrite length_firstn, Nat.min_l by lia. apply firstn_skipn.
Qed.

Lemma first_record_nonempty (l u : str) :
  l <> [] -> u <> [] -> first_record l u <> [].
Proof.
  intros Hl Hu.
  destruct (first_record_cases l u) as [[H _] | (k & Hk & _ & H)];
    rewrite H; [exact Hu|].
  destruct l; [contradiction|]. now destruct (firstn k u).
Qed.

Lemma split_records_fuel (l : str) :
  l <> [] ->
  forall n m u, (length u <= n)%nat -> (length u <= m)%nat ->
                split_records n l u = split_records m l u.
Proof.
  intros Hl. induction n as [|n IH]; intros m u Hn Hm.
  - destruct u; [|simpl in Hn; lia]. now destruct m.
  - destruct m as [|m]; [destruct u; [reflexivity | simpl in Hm; lia]|].
    destruct u as [|c u]; [reflexivity|].
    cbn [split_records]. f_equal.
    assert (Hne : first_record l (c :: u) <> [])
      by (apply first_record_nonempty; congruence).
    assert (length (first_record l (c :: u)) <> 0%nat)
      by (destruct (first_record l (c :: u)); simpl; congruence).
    apply IH; rewrite length_skipn; cbn [length] in *; lia.
Qed.

Lemma split_records_concat (l : str) :
  l <> [] ->
  forall n u, (length u <= n)%nat -> concat (split_records n l u) = u.
Proof.
  intros Hl. induction n as [|n IH]; intros u Hn.
  - destruct u; [reflexivity | simpl in Hn; lia].
  - destruct u as [|c u]; [reflexivity|].
    cbn [split_records concat].
    assert (Hne : first_record l (c :: u) <> [])
      by (apply first_record_nonempty; congruence).
    assert (length (first_record l (c :: u)) <> 0%nat)
      by (destruct (first_record l (c :: u)); simpl; congruence).
    rewrite IH by (rewrite length_skipn; cbn [length] in *; lia).
    apply first_record_prefix.
Qed.

Lemma split_records_delimited (l : str) :
  forall n u, Forall (endswith l) (removelast (split_records n l u)).
Proof.
  induction n as [|n IH]; intros u; [constructor|].
  destruct u as [|c u]; [constructor|].
  cbn [split_records].
  set (r := first_record l (c :: u)).
  destruct (split_records n l (skipn (length r) (c :: u))) as [|r' rs] eqn:E.
  - constructor.
  - change (removelast (r :: r' :: rs)) with (r :: removelast (r' :: rs)).
    constructor.
    + destruct (first_record_cases l (c :: u)) as [[H _] | (k & Hk & _ & H)].
      * fold r in H. rewrite H, skipn_all in E.
        destruct n; discriminate.
      * exists (firstn k (c :: u)). exact H.
    + rewrite <- E. apply IH.
Qed.

(** ** Iterating to exhaustion, literal delimiter *)

Lemma length_slice (b : str) (ms me : Z) :
  0 <= ms <= me -> me <= len b ->
  length (slice b ms me) = Z.to_nat (me - ms).
Proof.
  intros H1 H2. rewrite slice_nat by lia.
  rewrite length_firstn, length_skipn. unfold len in *; lia.
Qed.

(** With a non-empty literal delimiter, [list(rdr)] is the list of records
    that repeated searches of the whole remaining input give. *)
Lemma collect_literal (l : str) :
  l <> [] ->
  forall fuel w,
    wf w -> delimiter (self w) = Literal l ->
    (length (unconsumed w) < fuel)%nat ->
    exists w',
      collect fuel w =
        (Ok (split_records (length (unconsumed w)) l (unconsumed w)), w') /\
      wf w' /\ unconsumed w' = [] /\ delimiter (self w') = Literal l.
Proof.
  intros Hl. induction fuel as [|fuel IH]; intros w Hwf Hd Hfuel; [lia|].
  destruct (__next___spec w Hwf) as (b & ms & me & w1 & Hpost & Hn & Hwf' & Hu & Hd').
  { now rewrite Hd. }
  rewrite Hd in Hpost.
  pose proof (np_range _ _ _ _ _ _ _ Hpost) as [Hr1 Hr2].
  pose proof (np_record _ _ _ _ _ _ _ Hpost) as Hrec. simpl in Hrec.
  cbn [collect]. rewrite Hn.
  destruct (np_span _ _ _ _ _ _ _ Hpost Hl) as [(Hu0 & Hb & Hms & Hme) | Hspan].
  - subst me ms. simpl.
    eexists; split; [|split; [exact Hwf'|split]].
    + rewrite Hu0. reflexivity.
    + rewrite Hu, Hu0. reflexivity.
    + congruence.
  - destruct (Z.eqb_spec me 0) as [?|_]; [lia|].
    assert (Hlen : length (slice b ms me) = Z.to_nat (me - ms))
      by (apply length_slice; lia).
    destruct (unconsumed w) as [|c u] eqn:Eu.
    { rewrite first_record_nil in Hrec. rewrite Hrec in Hlen.
      simpl in Hlen. lia. }
    destruct (IH _ Hwf') as (w' & Hc & Hw' & Hu' & Hd''); [congruence| |].
    { rewrite Hu, length_skipn. cbn [length] in *. lia. }
    rewrite Hc.
    eexists; split; [|split; [exact Hw'|split; [exact Hu'|exact Hd'']]].
    f_equal. f_equal. cbn [length split_records]. rewrite <- Hrec. f_equal.
    rewrite Hu, Hlen.
    apply split_records_fuel; [exact Hl|lia|].
    rewrite length_skipn. cbn [length]. lia.
Qed.

(** ** C1: round trip *)

(** C1, as stated, fails: with the empty literal delimiter the first search
    matches at offset 0 with an empty match, [__next__] takes the end offset
    0 for the end of the stream, and the two units of the input are never
    yielded. *)
Lemma C1_counterexample_empty_delimiter :
  exists w0 w',
    __init__ (Handle (string_io (str_of "ab"))) (Literal []) 4 = Ok w0 /\
    collect 8 w0 = (Ok [], w') /\
    concat (@nil str) <> src_input (Handle (string_io (str_of "ab"))).
Proof.
  eexists; eexists. split; [reflexivity|]. split; [reflexivity|].
  discriminate.
Qed.

(** C1 (amended): for every finite input, every non-empty literal delimiter
    and every positive chunk size, iterating the scanner to exhaustion
    terminates, the concatenation of the records is the input, and every
    record but the last ends with the delimiter. *)
Theorem C1_roundtrip_nonempty_literal
    (src : Src) (l : str) (bs : Z) (fuel : nat) :
  src_ok src -> l <> [] -> 0 < bs ->
  (length (src_input src) < fuel)%nat ->
  exists w0 rs w',
    __init__ src (Literal l) bs = Ok w0 /\
    collect fuel w0 = (Ok rs, w') /\
    concat rs = src_input src /\
    Forall (endswith l) (removelast rs).
Proof.
  intros Hsrc Hl Hbs Hfuel.
  destruct (__init___spec src (Literal l) bs Hsrc Hbs)
    as (w0 & Hi & Hwf & Hu & Hd & _).
  destruct (collect_literal l Hl fuel w0 Hwf Hd) as (w' & Hc & _);
    [now rewrite Hu|].
  rewrite Hu in Hc.
  exists w0, (split_records (length (src_input src)) l (src_input src)), w'.
  split; [exact Hi|]. split; [exact Hc|]. split.
  - apply split_records_concat; [exact Hl | lia].
  - apply split_records_delimited.
Qed.

Lemma C1_roundtrip_witness :
  exists w0 rs w',
    __init__ (Handle (string_io (str_of "a~b~c"))) (Literal (str_of "~")) 2
      = Ok w0 /\
    collect 6 w0 = (Ok rs, w') /\
    concat rs = src_input (Handle (string_io (str_of "a~b~c"))) /\
    Forall (endswith (str_of "~")) (removelast rs).
Proof.
  apply (C1_roundtrip_nonempty_literal
           (Handle (string_io (str_of "a~b~c"))) (str_of "~") 2 6).
  - simpl. split; [reflexivity | lia].
  - discriminate.
  - lia.
  - simpl. lia.
Defined.

(** ** C2: a delimiter split across a read boundary *)

(** C2: with a non-empty literal delimiter and input left, (1) a failed
    search while the source is not known to be exhausted drops only the
    prefix before the cursor, appends the next chunk and searches again
    from [len(delimiter) - 1] units before the old end of the buffer, and
    (2) [__next__] returns the record that one search of the whole remaining
    input gives, wherever the read boundaries fall. *)
Theorem C2_split_delimiter_found (w : World) (l : str) :
  wf w -> delimiter (self w) = Literal l -> l <> [] ->
  unconsumed w <> [] ->
  (forall buf idx search_idx,
      _eof (self w) = false -> find buf l search_idx = -1 ->
      exists w',
        _next_iter (Literal l) w buf idx search_idx =
          (Continue
             (slice_from buf idx ++
              firstn (Z.to_nat (buffer_size (self w))) (remaining (file w)))
             0
             (Z.max 0 (len (slice_from buf idx) - (len l - 1))), w') /\
        remaining (file w') =
          skipn (Z.to_nat (buffer_size (self w))) (remaining (file w))) /\
  exists w',
    __next__ w = (Ok (first_record l (unconsumed w)), w') /\
    wf w' /\
    unconsumed w' =
      skipn (length (first_record l (unconsumed w))) (unconsumed w).
Proof.
  intros Hwf Hd Hl Hu. split.
  - intros buf idx search_idx Heof Hfail.
    destruct Hwf as [Ho Hp Hf Hb Hi He].
    destruct (_next_refill_more w buf idx (len l - 1) Heof Ho Hp Hf
                ltac:(lia)) as (w' & Hstep & Hrem & _).
    exists w'. split; [|exact Hrem].
    unfold _next_iter. rewrite Hfail. simpl. exact Hstep.
  - destruct (__next___spec w Hwf) as (b & ms & me & w1 & Hpost & Hn & Hwf' & Hu' & _).
    { now rewrite Hd. }
    rewrite Hd in Hpost.
    pose proof (np_range _ _ _ _ _ _ _ Hpost) as [Hr1 Hr2].
    pose proof (np_record _ _ _ _ _ _ _ Hpost) as Hrec. simpl in Hrec.
    destruct (np_span _ _ _ _ _ _ _ Hpost Hl) as [(Hu0 & _) | Hspan];
      [contradiction|].
    destruct (Z.eqb_spec me 0) as [?|_]; [lia|].
    exists (set_buf_idx w1 b me).
    rewrite <- Hrec. split; [exact Hn|]. split; [exact Hwf'|].
    rewrite length_slice by lia. exact Hu'.
Qed.

(** The scenario of the specification: chunk size 4, a delimiter of length
    3 that covers offsets 3 to 5. *)
Lemma C2_split_delimiter_witness :
  __init__ (Handle (string_io (str_of "abc-=-def")))
    (Literal (str_of "-=-")) 4 = Ok split_scanner /\
  find (_buf (self split_scanner)) (str_of "-=-") 0 = -1 /\
  exists w',
    __next__ split_scanner = (Ok (str_of "abc-=-"), w') /\
    unconsumed w' = str_of "def".
Proof.
  split; [reflexivity|]. split; [reflexivity|].
  assert (Hwf : wf split_scanner).
  { constructor; simpl; try reflexivity; try lia; try discriminate.
    unfold len; simpl; lia. }
  destruct (C2_split_delimiter_found split_scanner (str_of "-=-") Hwf
              eq_refl ltac:(discriminate) ltac:(discriminate))
    as (_ & w' & Hn & _ & Hu).
  exists w'. split; [exact Hn | exact Hu].
Defined.

(** ** What [_next] never touches *)

Lemma fobj_read_frame (f f' : File) (size : Z) (o : option str) :
  fobj_read f size = (o, f') ->
  data f' = data f /\ fclosed f' = fclosed f.
Proof.
  unfold fobj_read. destruct (fclosed f) eqn:E; intros H; inversion H; subst;
    simpl; auto.
Qed.

Lemma same_config_refl (w : World) : same_config w w.
Proof. repeat split. Qed.

Lemma same_config_trans (w1 w2 w3 : World) :
  same_config w1 w2 -> same_config w2 w3 -> same_config w1 w3.
Proof.
  unfold same_config. intros H1 H2.
  decompose [and] H1; decompose [and] H2. repeat split; congruence.
Qed.

Lemma _next_refill_frame (w w' : World) (buf : str) (idx off : Z) (st : step) :
  _next_refill w buf idx off = (st, w') ->
  same_config w w' /\
  match st with
  | Return _ _ _ => w' = w /\ _eof (self w) = true
  | _ => True
  end.
Proof.
  unfold _next_refill.
  destruct (_eof (self w)) eqn:He.
  - destruct (idx <? len buf); intros H; inversion H; subst;
      (split; [apply same_config_refl | now split]).
  - destruct (_fobj (self w)) as [[]|] eqn:Hf.
    + destruct (fobj_read (file w) (buffer_size (self w))) as [[more|] f'] eqn:Hr;
        apply fobj_read_frame in Hr as [Hd Hc].
      * destruct (is_empty more); intros H; inversion H; subst;
          (split; [repeat split; simpl; assumption | exact I]).
      * intros H; inversion H; subst.
        split; [repeat split; simpl; assumption | exact I].
    + intros H; inversion H; subst. split; [apply same_config_refl | exact I].
Qed.

Lemma _next_loop_frame (d : Delimiter) (fuel : nat) :
  forall w buf idx search_idx o w',
    _next_loop fuel d w buf idx search_idx = (o, w') -> same_config w w'.
Proof.
  induction fuel as [|fuel IH]; intros w buf idx search_idx o w' H.
  - inversion H; subst. apply same_config_refl.
  - cbn [_next_loop] in H.
    destruct (_next_iter d w buf idx search_idx) as [st w1] eqn:Hi.
    assert (Hf : same_config w w1).
    { unfold _next_iter in Hi. destruct d as [l|p].
      - destruct (negb (find buf l search_idx =? -1)).
        + inversion Hi; subst. apply same_config_refl.
        + now apply _next_refill_frame in Hi.
      - destruct (p buf search_idx) as [[rs re]|].
        + destruct (negb (len buf =? re)).
          * inversion Hi; subst. apply same_config_refl.
          * now apply _next_refill_frame in Hi.
        + now apply _next_refill_frame in Hi. }
    destruct st.
    + inversion H; subst. exact Hf.
    + eapply same_config_trans; [exact Hf|]. eapply IH; exact H.
    + inversion H; subst. exact Hf.
Qed.

Lemma set_buf_idx_config (w : World) (buf : str) (idx : Z) :
  same_config w (set_buf_idx w buf idx).
Proof. repeat split. Qed.

Lemma __next___frame (w w' : World) (o : outcome str) :
  __next__ w = (o, w') -> same_config w w'.
Proof.
  unfold __next__, _next.
  destruct (_next_loop _ _ _ _ _ _) as [[[[b ms] me]|e|] w1] eqn:Hl;
    apply _next_loop_frame in Hl.
  - destruct (me =? 0); intros H; inversion H; subst;
      (eapply same_config_trans; [exact Hl | apply set_buf_idx_config]).
  - intros H; inversion H; subst. exact Hl.
  - intros H; inversion H; subst. exact Hl.
Qed.


(** ** The loop of [_next] terminates *)

Lemma fobj_read_measure (f f' : File) (size : Z) (more : str) :
  0 <= fpos f -> fobj_read f size = (Some more, f') ->
  0 <= fpos f' /\
  (length (remaining f') + length more = length (remaining f))%nat.
Proof.
  intros Hp. unfold fobj_read. destruct (fclosed f); [discriminate|].
  set (n := if size <? 0 then Z.max 0 (len (data f) - fpos f)
            else Z.min size (Z.max 0 (len (data f) - fpos f))).
  assert (Hn : 0 <= n) by (unfold n; destruct (Z.ltb_spec size 0); lia).
  intros H; inversion H; subst; clear H. simpl.
  split; [lia|].
  rewrite !remaining_nat by (simpl; lia). simpl.
  unfold slice, clamp.
  destruct (Z.ltb_spec (fpos f) 0) as [?|_]; [lia|].
  destruct (Z.ltb_spec (fpos f + n) 0) as [?|_]; [lia|].
  rewrite length_firstn, !length_skipn.
  pose proof (len_nonneg (data f)). unfold len in *.
  assert (n <= Z.max 0 (Z.of_nat (length (data f)) - fpos f))
    by (unfold n; destruct (Z.ltb_spec size 0); lia).
  lia.
Qed.

(** More fuel never changes an outcome that was reached. *)
Lemma _next_loop_fuel_irrelevant (d : Delimiter) (n : nat) :
  forall m w buf idx search_idx o w',
    _next_loop n d w buf idx search_idx = (o, w') -> o <> Diverge ->
    (n <= m)%nat ->
    _next_loop m d w buf idx search_idx = (o, w').
Proof.
  induction n as [|n IH]; intros m w buf idx search_idx o w' H Ho Hm.
  - inversion H; subst. contradiction.
  - destruct m as [|m]; [lia|].
    cbn [_next_loop] in *.
    destruct (_next_iter d w buf idx search_idx) as [[b s e|b i si|e] w1];
      try exact H.
    apply IH; [exact H | exact Ho | lia].
Qed.

(** The bound that [_next] supplies is never reached: on every scanner over
    a finite file, whatever the delimiter and the chunk size, the loop
    returns or raises. *)
Lemma _next_loop_total (d : Delimiter) (fuel : nat) :
  forall w buf idx search_idx,
    0 <= fpos (file w) ->
    (length (remaining (file w)) + (if _eof (self w) then 1 else 2)
     <= fuel)%nat ->
    fst (_next_loop fuel d w buf idx search_idx) <> Diverge.
Proof.
  induction fuel as [|fuel IH]; intros w buf idx search_idx Hp Hfuel.
  { destruct (_eof (self w)); lia. }
  assert (Hrefill : forall off,
    fst match _next_refill w buf idx off with
        | (Return b s e, w') => (Ok (b, s, e), w')
        | (Fail e, w') => (Raise e, w')
        | (Continue buf' idx' search_idx', w') =>
            _next_loop fuel d w' buf' idx' search_idx'
        end <> Diverge).
  { intros off. unfold _next_refill.
    destruct (_eof (self w)) eqn:He.
    - destruct (idx <? len buf); discriminate.
    - destruct (_fobj (self w)) as [[]|]; [|discriminate].
      destruct (fobj_read (file w) (buffer_size (self w))) as [[more|] f'] eqn:Hr;
        [|discriminate].
      destruct (fobj_read_measure _ _ _ _ Hp Hr) as [Hp' Hm].
      apply IH.
      + destruct (is_empty more); exact Hp'.
      + destruct more as [|c more]; simpl in *; [lia|].
        rewrite He. lia. }
  cbn [_next_loop]. unfold _next_iter.
  destruct d as [l|p].
  - destruct (negb (find buf l search_idx =? -1)); [discriminate|].
    apply Hrefill.
  - destruct (p buf search_idx) as [[rs re]|]; [|apply Hrefill].
    destruct (negb (len buf =? re)); [discriminate | apply Hrefill].
Qed.

Lemma _next_total (w : World) :
  0 <= fpos (file w) -> fst (_next w) <> Diverge.
Proof.
  intros Hp. unfold _next. apply _next_loop_total; [exact Hp|].
  unfold _next_fuel. destruct (_eof (self w)); lia.
Qed.

(** ** C3: pattern matches that end at the end of the buffer *)

Lemma run_length_le (c : ascii) (s : str) :
  (run_length c s <= length s)%nat.
Proof.
  induction s as [|x t IH]; simpl; [lia|].
  destruct (Ascii.eqb x c); lia.
Qed.

Lemma search_run_aux_ok (c : ascii) (s : str) :
  forall i rstart rend,
    search_run_aux c s i = Some (rstart, rend) ->
    i <= rstart /\ rstart < rend /\ rend <= i + len s.
Proof.
  induction s as [|x t IH]; intros i rs re H; simpl in H; [discriminate|].
  pose proof (run_length_le c t) as Hle.
  unfold len in *. cbn [length].
  destruct (Ascii.eqb x c).
  - inversion H; subst. lia.
  - apply IH in H. lia.
Qed.

(** The matcher of [c+] meets the contract of a compiled pattern and never
    matches the empty sequence. *)
Lemma search_run_ok (c : ascii) :
  delim_ok (Pattern (search_run c)) /\
  delim_nonempty (Pattern (search_run c)).
Proof.
  unfold search_run. split.
  - intros buf pos rs re Hp H. apply search_run_aux_ok in H.
    pose proof (len_nonneg buf). unfold len in *.
    rewrite length_skipn in H. lia.
  - intros buf pos rs re H. apply search_run_aux_ok in H. lia.
Qed.



(** ** C4: the documented scenarios *)

Lemma readlines_literal (src : Src) (l : str) (bs : Z) (fuel : nat) :
  src_ok src -> l <> [] -> 0 < bs ->
  (length (src_input src) < fuel)%nat ->
  fst (readlines fuel src (Some (Literal l)) bs) =
  Ok (split_records (length (src_input src)) l (src_input src)).
Proof.
  intros Hsrc Hl Hbs Hfuel.
  destruct (__init___spec src (Literal l) bs Hsrc Hbs)
    as (w0 & Hi & Hwf & Hu & Hd & _).
  destruct (collect_literal l Hl fuel w0 Hwf Hd) as (w' & Hc & _);
    [now rewrite Hu|].
  rewrite Hu in Hc.
  unfold readlines. rewrite Hi, Hc.
  destruct (close w'); reflexivity.
Qed.

(** A scanner with nothing buffered and the end-of-source flag set is at the
    end of the stream, whatever the delimiter. *)
Lemma _next_at_end (w : World) :
  _buf (self w) = [] -> _idx (self w) = 0 -> _eof (self w) = true ->
  delim_ok (delimiter (self w)) ->
  _next w = (Ok ([], 0, 0), w).
Proof.
  intros Hb Hi He Hd. unfold _next, _next_fuel. rewrite Hb, Hi.
  cbn [_next_loop]. unfold _next_iter.
  destruct (delimiter (self w)) as [l|p].
  - destruct l as [|c l]; [reflexivity|].
    change (find [] (c :: l) 0) with (-1). simpl.
    rewrite _next_refill_eof by exact He. reflexivity.
  - destruct (p [] 0) as [[rs re]|] eqn:Es.
    + destruct (Hd [] 0 rs re ltac:(lia) Es) as (H1 & H2 & H3).
      rewrite len_nil in *.
      assert (re = 0) by lia. subst re. simpl.
      rewrite _next_refill_eof by exact He. reflexivity.
    + rewrite _next_refill_eof by exact He. reflexivity.
Qed.

Lemma __next___at_end (w : World) :
  _buf (self w) = [] -> _idx (self w) = 0 -> _eof (self w) = true ->
  delim_ok (delimiter (self w)) ->
  __next__ w = (Raise StopIteration, w).
Proof.
  intros Hb Hi He Hd. unfold __next__.
  rewrite _next_at_end by assumption. simpl.
  f_equal. destruct w as [f s]; destruct s; simpl in *. now subst.
Qed.

(** C4: for the content ["a~\nb~\nc~\n"] and every positive chunk size, the
    delimiter ["\n"] gives the three lines and the delimiter ["~"] gives
    ["a~"], ["\nb~"], ["\nc~"], ["\n"]; an empty source gives no record and
    no error, whatever the delimiter. *)
Theorem C4_documented_scenarios (bs : Z) (fuel : nat) :
  0 < bs -> (9 < fuel)%nat ->
  fst (readlines fuel (Handle (string_io tilde_lines))
         (Some (Literal newline)) bs) =
    Ok [str_of "a~" ++ newline; str_of "b~" ++ newline;
        str_of "c~" ++ newline] /\
  fst (readlines fuel (Handle (string_io tilde_lines))
         (Some (Literal (str_of "~"))) bs) =
    Ok [str_of "a~"; newline ++ str_of "b~"; newline ++ str_of "c~";
        newline] /\
  (forall d, delim_ok d ->
     exists w0,
       __init__ (Handle (string_io [])) d bs = Ok w0 /\
       __next__ w0 = (Raise StopIteration, w0) /\
       fst (readlines fuel (Handle (string_io [])) (Some d) bs) = Ok []).
Proof.
  intros Hbs Hfuel.
  assert (Hsrc : src_ok (Handle (string_io tilde_lines)))
    by (simpl; split; [reflexivity | lia]).
  split; [|split].
  - rewrite readlines_literal
      by (assumption || discriminate || (simpl; lia)).
    reflexivity.
  - rewrite readlines_literal
      by (assumption || discriminate || (simpl; lia)).
    reflexivity.
  - intros d Hd.
    assert (Hi : __init__ (Handle (string_io [])) d bs =
                 Ok (mkWorld (mkFile [] (0 + (if bs <? 0 then 0 else Z.min bs 0)) false)
                       (mkReadLines false (Some Fobj) false 0 bs [] 0 true d))).
    { unfold __init__, fobj_read. simpl. rewrite slice_nil. reflexivity. }
    eexists. split; [exact Hi|].
    assert (Hn : forall w, w = mkWorld (mkFile [] (0 + (if bs <? 0 then 0 else Z.min bs 0)) false)
                       (mkReadLines false (Some Fobj) false 0 bs [] 0 true d) ->
                 __next__ w = (Raise StopIteration, w)).
    { intros w ->. apply __next___at_end; try reflexivity. exact Hd. }
    split; [apply Hn; reflexivity|].
    unfold readlines. rewrite Hi.
    destruct fuel as [|fuel]; [lia|].
    cbn [collect]. rewrite (Hn _ eq_refl).
    destruct (close _); reflexivity.
Qed.

Lemma C4_documented_scenarios_witness :
  fst (readlines 10 (Handle (string_io tilde_lines))
         (Some (Literal newline)) BUFFER_SIZE) =
    Ok [str_of "a~" ++ newline; str_of "b~" ++ newline;
        str_of "c~" ++ newline] /\
  fst (readlines 10 (Handle (string_io tilde_lines))
         (Some (Literal (str_of "~"))) BUFFER_SIZE) =
    Ok [str_of "a~"; newline ++ str_of "b~"; newline ++ str_of "c~";
        newline] /\
  (forall d, delim_ok d ->
     exists w0,
       __init__ (Handle (string_io [])) d BUFFER_SIZE = Ok w0 /\
       __next__ w0 = (Raise StopIteration, w0) /\
       fst (readlines 10 (Handle (string_io [])) (Some d) BUFFER_SIZE)
         = Ok []).
Proof.
  apply (C4_documented_scenarios BUFFER_SIZE 10).
  - unfold BUFFER_SIZE; lia.
  - lia.
Defined.

(** ** C5: peeking by record *)




(** ** C6: reset *)

Lemma advance_config (n : nat) :
  forall w, same_config w (advance n w).
Proof.
  induction n as [|n IH]; intros w; [apply same_config_refl|].
  cbn [advance]. eapply same_config_trans; [|apply IH].
  destruct (__next__ w) as [o w'] eqn:E. simpl.
  eapply __next___frame; exact E.
Qed.

(** From any state of a scanner that was built on [src], [reset] lands on
    the state that construction gives. *)
Lemma reset_rebuilds (src : Src) (d : Delimiter) (bs : Z) (w0 w : World)
    (nd : option Delimiter) :
  src_ok src -> __init__ src d bs = Ok w0 -> same_config w0 w ->
  exists w0',
    __init__ src (match nd with Some d' => d' | None => d end) bs = Ok w0' /\
    reset nd w = (Ok tt, w0').
Proof.
  intros Hsrc Hi Hcfg.
  assert (Hopen : exists f, open_src_file src = Ok (f, is_path src) /\
                            fclosed f = false /\ 0 <= fpos f).
  { destruct src as [[c|]|f]; simpl in *.
    - exists (mkFile c 0 false). repeat split; simpl; lia.
    - congruence.
    - exists f. destruct Hsrc. repeat split; assumption. }
  destruct Hopen as (f & Hof & Hc & Hp).
  unfold __init__, fobj_tell in *. rewrite Hof, Hc in *.
  destruct (fobj_read f bs) as [[buf|] f'] eqn:Hr; [|discriminate].
  inversion Hi; subst w0; clear Hi.
  eexists; split; [reflexivity|].
  destruct Hcfg as (Hd & Hcl & H1 & H2 & H3 & H4 & H5 & H6). simpl in *.
  apply fobj_read_frame in Hr as Hfr. destruct Hfr as [Hd' Hc'].
  unfold reset, fobj_seek. rewrite H2, H4, H5, Hcl, Hc', Hc.
  destruct (Z.ltb_spec (fpos f) 0) as [?|_]; [lia|].
  rewrite Hd, Hd'.
  replace (mkFile (data f) (fpos f) false) with f
    by (destruct f; simpl in *; congruence).
  rewrite Hr, H1, H3, H6. reflexivity.
Qed.

(** C6: after any number of [__next__] calls on a scanner built on [src],
    [reset()] succeeds and gives back the very state that construction
    gave, so that what the scanner yields from then on is what a fresh
    scanner yields; [reset(delimiter)] gives the state of a fresh scanner
    built with the new delimiter. *)
Theorem C6_reset_replays (src : Src) (d : Delimiter) (bs : Z) (w0 : World)
    (n : nat) :
  src_ok src -> __init__ src d bs = Ok w0 ->
  reset None (advance n w0) = (Ok tt, w0) /\
  (forall fuel,
      collect fuel (snd (reset None (advance n w0))) = collect fuel w0) /\
  (forall d',
      exists w0',
        __init__ src d' bs = Ok w0' /\
        reset (Some d') (advance n w0) = (Ok tt, w0')).
Proof.
  intros Hsrc Hi.
  assert (Hr : reset None (advance n w0) = (Ok tt, w0)).
  { destruct (reset_rebuilds src d bs w0 (advance n w0) None Hsrc Hi
                (advance_config n w0)) as (w0' & Hi' & Hr).
    simpl in Hi'. congruence. }
  split; [exact Hr|]. split.
  - intros fuel. now rewrite Hr.
  - intros d'.
    exact (reset_rebuilds src d bs w0 (advance n w0) (Some d') Hsrc Hi
             (advance_config n w0)).
Qed.

Lemma C6_reset_replays_witness :
  exists w0,
    __init__ (Handle (string_io tilde_lines)) (Literal newline) 4 = Ok w0 /\
    fst (__next__ (advance 1 w0)) = Ok (str_of "b~" ++ newline) /\
    reset None (advance 2 w0) = (Ok tt, w0) /\
    (forall fuel,
        collect fuel (snd (reset None (advance 2 w0))) = collect fuel w0) /\
    (forall d',
        exists w0',
          __init__ (Handle (string_io tilde_lines)) d' 4 = Ok w0' /\
          reset (Some d') (advance 2 w0) = (Ok tt, w0')).
Proof.
  eexists. split; [reflexivity|]. split; [reflexivity|].
  apply (C6_reset_replays (Handle (string_io tilde_lines)) (Literal newline)
           4 _ 2).
  - simpl. split; [reflexivity | lia].
  - reflexivity.
Defined.

(** ** C7 and C10: peeking by count *)



Lemma firstn_app_enough (n : nat) (a b : str) :
  (n <= length a)%nat \/ b = [] -> firstn n (a ++ b) = firstn n a.
Proof.
  intros [H|H].
  - rewrite firstn_app. replace (n - length a)%nat with 0%nat by lia.
    rewrite firstn_O. apply app_nil_r.
  - subst b. now rewrite app_nil_r.
Qed.







(** C10: for a count that is zero or negative, [peek(size)] returns the
    empty sequence and leaves the scanner and the file as they are, in
    every state. *)
Theorem C10_peek_nonpositive (w : World) (size : Z) :
  size <= 0 -> peek (Some size) w = (Ok [], w).
Proof.
  intros Hs. unfold peek.
  destruct (Z.leb_spec size 0); [reflexivity | lia].
Qed.

Lemma C10_peek_nonpositive_witness :
  peek (Some (-3)) split_scanner = (Ok [], split_scanner).
Proof.
  apply (C10_peek_nonpositive split_scanner (-3)). lia.
Defined.

(** ** C8: the end of the stream *)






(** ** C9: close *)






(** * Further properties of the module *)

(** ** The search loop always ends *)

(** X1: on every scanner over a finite file, whatever the delimiter, the
    chunk size and the state of the scanner, the loop of [_next] returns or
    raises within the number of units left in the file plus two passes, and
    more passes allowed never change what it gives. *)
Theorem X1_next_terminates (w : World) :
  0 <= fpos (file w) ->
  exists r w',
    r <> Diverge /\
    forall fuel,
      (_next_fuel w <= fuel)%nat ->
      _next_loop fuel (delimiter (self w)) w
        (_buf (self w)) (_idx (self w)) (_idx (self w)) = (r, w').
Proof.
  intros Hp.
  destruct (_next w) as [r w'] eqn:E.
  exists r, w'.
  assert (Hr : r <> Diverge).
  { pose proof (_next_total w Hp) as H. now rewrite E in H. }
  split; [exact Hr|].
  intros fuel Hfuel.
  eapply _next_loop_fuel_irrelevant; [exact E | exact Hr | exact Hfuel].
Qed.

Lemma X1_next_terminates_witness :
  exists r w',
    r <> Diverge /\
    forall fuel,
      (_next_fuel run_scanner <= fuel)%nat ->
      _next_loop fuel (delimiter (self run_scanner)) run_scanner
        (_buf (self run_scanner)) (_idx (self run_scanner))
        (_idx (self run_scanner)) = (r, w').
Proof.
  apply (X1_next_terminates run_scanner). simpl. lia.
Defined.

(** ** The invariant of the class *)





(** ** Construction *)

Lemma open_src_file_ok (src : Src) :
  src_ok src ->
  exists f,
    open_src_file src = Ok (f, is_path src) /\
    fclosed f = false /\ 0 <= fpos f /\ remaining f = src_input src.
Proof.
  intros Hsrc. destruct src as [[c|]|f]; simpl in *.
  - exists (mkFile c 0 false). repeat split; try reflexivity; try lia.
    unfold remaining; simpl. apply slice_from_zero.
  - congruence.
  - exists f. destruct Hsrc. repeat split; assumption.
Qed.

Lemma is_empty_firstn (n : nat) (s : str) :
  (0 < n)%nat -> is_empty (firstn n s) = is_empty s.
Proof. intros Hn. destruct n; [lia|]. now destruct s. Qed.

(** X3: on a source that can be opened, with a positive chunk size,
    construction succeeds; the buffer holds the first chunk of the input,
    the cursor is at 0, the end-of-source flag is set exactly when the
    input is empty, the scanner owns the handle exactly when it was given a
    path, and the invariant of the class holds. *)
Theorem X3_construction (src : Src) (d : Delimiter) (bs : Z) :
  src_ok src -> 0 < bs ->
  exists w,
    __init__ src d bs = Ok w /\ wf w /\
    _buf (self w) = firstn (Z.to_nat bs) (src_input src) /\
    _idx (self w) = 0 /\
    _eof (self w) = is_empty (src_input src) /\
    remaining (file w) = skipn (Z.to_nat bs) (src_input src) /\
    _managed (self w) = is_path src /\ _closed (self w) = false /\
    delimiter (self w) = d /\ buffer_size (self w) = bs.
Proof.
  intros Hsrc Hbs.
  destruct (open_src_file_ok src Hsrc) as (f & Hof & Hc & Hp & Hin).
  destruct (fobj_read_ok f bs Hc Hp ltac:(lia))
    as (f' & Hr & Hrem & Hd & Hc' & Hp').
  destruct (__init___spec src d bs Hsrc Hbs) as (w & Hi & Hwf & _).
  exists w. split; [exact Hi|]. split; [exact Hwf|].
  unfold __init__, fobj_tell in Hi. rewrite Hof, Hc, Hr in Hi.
  inversion Hi; subst w; clear Hi. simpl.
  rewrite <- Hin.
  repeat split; try assumption.
  apply is_empty_firstn. lia.
Qed.

Lemma X3_construction_witness :
  exists w,
    __init__ (Path (Some (str_of "abc-=-def"))) (Literal (str_of "-=-")) 4
      = Ok w /\ wf w /\
    _buf (self w) = str_of "abc-" /\
    _idx (self w) = 0 /\
    _eof (self w) = false /\
    remaining (file w) = str_of "=-def" /\
    _managed (self w) = true /\ _closed (self w) = false /\
    delimiter (self w) = Literal (str_of "-=-") /\ buffer_size (self w) = 4.
Proof.
  apply (X3_construction (Path (Some (str_of "abc-=-def")))
           (Literal (str_of "-=-")) 4).
  - simpl. discriminate.
  - lia.
Defined.

(** ** Iterating with any delimiter that never matches the empty
    sequence *)

Lemma collect_config (fuel : nat) :
  forall w o w', collect fuel w = (o, w') -> same_config w w'.
Proof.
  induction fuel as [|fuel IH]; intros w o w' H.
  - inversion H; subst. apply same_config_refl.
  - cbn [collect] in H.
    destruct (__next__ w) as [[r|e|] w1] eqn:En;
      apply __next___frame in En.
    + destruct (collect fuel w1) as [o1 w2] eqn:Ec.
      apply IH in Ec.
      assert (w' = w2) by (destruct o1; inversion H; reflexivity).
      subst w'. eapply same_config_trans; eassumption.
    + destruct e; inversion H; subst; exact En.
    + inversion H; subst; exact En.
Qed.

(** The record that [__next__] returns is a prefix of what was left. *)
Lemma next_post_prefix (d : Delimiter) (u : str) (w w' : World)
    (b : str) (ms me : Z) :
  next_post d u w b ms me w' ->
  slice b ms me = firstn (Z.to_nat (me - ms)) u.
Proof.
  intros [_ _ _ _ [H5 H5'] H6 _ _ _ _].
  rewrite slice_nat by lia. rewrite <- H6.
  rewrite slice_from_nat by lia.
  symmetry. apply firstn_app_enough. left.
  rewrite length_skipn. unfold len in *. lia.
Qed.

Lemma collect_nonempty_delim (d : Delimiter) :
  delim_ok d -> delim_nonempty d ->
  forall fuel w,
    wf w -> delimiter (self w) = d ->
    (length (unconsumed w) < fuel)%nat ->
    exists rs w',
      collect fuel w = (Ok rs, w') /\
      concat rs = unconsumed w /\
      Forall (fun r => r <> []) rs /\
      wf w' /\ unconsumed w' = [].
Proof.
  intros Hd Hne. induction fuel as [|fuel IH]; intros w Hwf Hdw Hfuel; [lia|].
  destruct (__next___spec w Hwf)
    as (b & ms & me & w1 & Hpost & Hn & Hwf' & Hu & Hd').
  { now rewrite Hdw. }
  rewrite Hdw in Hpost, Hd'.
  pose proof (np_range _ _ _ _ _ _ _ Hpost) as [Hr1 Hr2].
  pose proof (next_post_prefix _ _ _ _ _ _ _ Hpost) as Hpre.
  cbn [collect]. rewrite Hn.
  destruct (np_span _ _ _ _ _ _ _ Hpost Hne) as [(Hu0 & Hb & Hms & Hme) | Hspan].
  - subst me ms. simpl.
    exists [], (set_buf_idx w1 b 0).
    split; [reflexivity|]. split; [now rewrite Hu0|].
    split; [constructor|]. split; [exact Hwf'|].
    rewrite Hu, Hu0. reflexivity.
  - destruct (Z.eqb_spec me 0) as [?|_]; [lia|].
    assert (Hlen : length (slice b ms me) = Z.to_nat (me - ms))
      by (apply length_slice; lia).
    assert (Hlu : (Z.to_nat (me - ms) <= length (unconsumed w))%nat).
    { rewrite Hpre, length_firstn in Hlen. lia. }
    destruct (IH _ Hwf' Hd') as (rs & w' & Hc & Hcat & Hall & Hw' & Hu').
    { rewrite Hu, length_skipn. lia. }
    rewrite Hc.
    exists (slice b ms me :: rs), w'.
    split; [reflexivity|]. split; [|split; [|split; assumption]].
    + cbn [concat]. rewrite Hcat, Hu, Hpre. apply firstn_skipn.
    + constructor; [|exact Hall].
      intros Hnil. rewrite Hnil in Hlen. simpl in Hlen. lia.
Qed.

(** X4: the round trip holds for patterns as well.  For every delimiter
    that never matches the empty sequence, literal or pattern, every finite
    input and every positive chunk size, iterating the scanner to
    exhaustion terminates, the records are not empty, and their
    concatenation is the input. *)
Theorem X4_roundtrip_nonempty_matches
    (src : Src) (d : Delimiter) (bs : Z) (fuel : nat) :
  src_ok src -> delim_ok d -> delim_nonempty d -> 0 < bs ->
  (length (src_input src) < fuel)%nat ->
  exists w0 rs w',
    __init__ src d bs = Ok w0 /\
    collect fuel w0 = (Ok rs, w') /\
    concat rs = src_input src /\
    Forall (fun r => r <> []) rs.
Proof.
  intros Hsrc Hd Hne Hbs Hfuel.
  destruct (__init___spec src d bs Hsrc Hbs)
    as (w0 & Hi & Hwf & Hu & Hdw & _).
  destruct (collect_nonempty_delim d Hd Hne fuel w0 Hwf Hdw)
    as (rs & w' & Hc & Hcat & Hall & _); [now rewrite Hu|].
  exists w0, rs, w'. rewrite <- Hu. auto.
Qed.

Lemma X4_roundtrip_witness :
  exists w0 rs w',
    __init__ (Handle (string_io (str_of "xxaaaaabaay")))
      (Pattern (search_run "a"%char)) 5 = Ok w0 /\
    collect 12 w0 = (Ok rs, w') /\
    concat rs = src_input (Handle (string_io (str_of "xxaaaaabaay"))) /\
    Forall (fun r => r <> []) rs.
Proof.
  apply (X4_roundtrip_nonempty_matches
           (Handle (string_io (str_of "xxaaaaabaay")))
           (Pattern (search_run "a"%char)) 5 12).
  - simpl. split; [reflexivity | lia].
  - apply search_run_ok.
  - apply search_run_ok.
  - lia.
  - simpl. lia.
Defined.

(** ** [readlines] *)

Lemma unconsumed_nil (w : World) :
  unconsumed w = [] -> remaining (file w) = [].
Proof. unfold unconsumed. intros H. now apply app_eq_nil in H. Qed.

(** [readlines] with a non-empty literal delimiter: the records, and the
    file object afterwards. *)
Lemma readlines_literal_full (src : Src) (l : str) (bs : Z) (fuel : nat) :
  src_ok src -> l <> [] -> 0 < bs ->
  (length (src_input src) < fuel)%nat ->
  exists f,
    readlines fuel src (Some (Literal l)) bs =
      (Ok (split_records (length (src_input src)) l (src_input src)),
       Some f) /\
    fclosed f = is_path src /\ remaining f = [].
Proof.
  intros Hsrc Hl Hbs Hfuel.
  destruct (__init___spec src (Literal l) bs Hsrc Hbs)
    as (w0 & Hi & Hwf & Hu & Hd & _ & Hm & Hcl).
  destruct (collect_literal l Hl fuel w0 Hwf Hd) as (w' & Hc & Hwf' & Hu' & _);
    [now rewrite Hu|].
  rewrite Hu in Hc.
  pose proof (collect_config _ _ _ _ Hc) as (_ & _ & Hc1 & _ & Hc3 & _).
  pose proof Hwf' as [Ho' _ Hf' _ _ _].
  unfold readlines. rewrite Hi, Hc.
  unfold close. rewrite Hc1, Hcl, Hf', Hc3, Hm. simpl.
  apply unconsumed_nil in Hu'.
  destruct (is_path src); eexists; (split; [reflexivity|]); simpl; auto.
Qed.

(** X5: with a non-empty literal delimiter the chunk size does not change
    what [readlines] yields: for any two positive chunk sizes the records
    are the same.  In both runs the source is read to its end, and the file
    object is closed afterwards exactly when [readlines] opened it
    itself. *)
Theorem X5_readlines_chunk_size_irrelevant
    (src : Src) (l : str) (bs1 bs2 : Z) (fuel : nat) :
  src_ok src -> l <> [] -> 0 < bs1 -> 0 < bs2 ->
  (length (src_input src) < fuel)%nat ->
  exists rs f1 f2,
    readlines fuel src (Some (Literal l)) bs1 = (Ok rs, Some f1) /\
    readlines fuel src (Some (Literal l)) bs2 = (Ok rs, Some f2) /\
    fclosed f1 = is_path src /\ fclosed f2 = is_path src /\
    remaining f1 = [] /\ remaining f2 = [].
Proof.
  intros Hsrc Hl Hb1 Hb2 Hfuel.
  destruct (readlines_literal_full src l bs1 fuel Hsrc Hl Hb1 Hfuel)
    as (f1 & H1 & Hc1 & Hr1).
  destruct (readlines_literal_full src l bs2 fuel Hsrc Hl Hb2 Hfuel)
    as (f2 & H2 & Hc2 & Hr2).
  eexists; exists f1, f2. repeat split; eassumption.
Qed.

Lemma X5_readlines_chunk_size_witness :
  exists rs f1 f2,
    readlines 10 (Path (Some tilde_lines)) (Some (Literal (str_of "~"))) 1
      = (Ok rs, Some f1) /\
    readlines 10 (Path (Some tilde_lines)) (Some (Literal (str_of "~")))
      BUFFER_SIZE = (Ok rs, Some f2) /\
    fclosed f1 = is_path (Path (Some tilde_lines)) /\
    fclosed f2 = is_path (Path (Some tilde_lines)) /\
    remaining f1 = [] /\ remaining f2 = [].
Proof.
  apply (X5_readlines_chunk_size_irrelevant (Path (Some tilde_lines))
           (str_of "~") 1 BUFFER_SIZE 10).
  - simpl. discriminate.
  - discriminate.
  - lia.
  - unfold BUFFER_SIZE. lia.
  - simpl. lia.
Defined.

(** X6: a chunk size of 0 makes the scanner blind.  The first read returns
    nothing, the end-of-source flag is set at construction, and whatever
    the source holds the scanner yields no record. *)
Theorem X6_chunk_size_zero (src : Src) (d : Delimiter) (fuel : nat) :
  src_ok src -> delim_ok d -> (0 < fuel)%nat ->
  exists w0,
    __init__ src d 0 = Ok w0 /\
    remaining (file w0) = src_input src /\
    _eof (self w0) = true /\
    __next__ w0 = (Raise StopIteration, w0) /\
    fst (readlines fuel src (Some d) 0) = Ok [].
Proof.
  intros Hsrc Hd Hfuel.
  destruct (open_src_file_ok src Hsrc) as (f & Hof & Hc & Hp & Hin).
  destruct (fobj_read_ok f 0 Hc Hp ltac:(lia))
    as (f' & Hr & Hrem & _).
  simpl in Hr, Hrem.
  assert (Hi : __init__ src d 0 =
               Ok (mkWorld f' (mkReadLines false (Some Fobj) (is_path src)
                                 (fpos f) 0 [] 0 true d))).
  { unfold __init__, fobj_tell. rewrite Hof, Hc, Hr. reflexivity. }
  eexists. split; [exact Hi|].
  assert (Hn : forall w,
             w = mkWorld f' (mkReadLines false (Some Fobj) (is_path src)
                               (fpos f) 0 [] 0 true d) ->
             __next__ w = (Raise StopIteration, w)).
  { intros w ->. apply __next___at_end; try reflexivity. exact Hd. }
  split; [simpl; congruence|]. split; [reflexivity|].
  split; [apply Hn; reflexivity|].
  unfold readlines. rewrite Hi.
  destruct fuel as [|fuel]; [lia|].
  cbn [collect]. rewrite (Hn _ eq_refl).
  destruct (close _); reflexivity.
Qed.

Lemma X6_chunk_size_zero_witness :
  exists w0,
    __init__ (Handle (string_io tilde_lines)) (Literal newline) 0 = Ok w0 /\
    remaining (file w0) = src_input (Handle (string_io tilde_lines)) /\
    _eof (self w0) = true /\
    __next__ w0 = (Raise StopIteration, w0) /\
    fst (readlines 5 (Handle (string_io tilde_lines))
           (Some (Literal newline)) 0) = Ok [].
Proof.
  apply (X6_chunk_size_zero (Handle (string_io tilde_lines))
           (Literal newline) 5).
  - simpl. split; [reflexivity | lia].
  - simpl. exact I.
  - lia.
Defined.

(** ** Lines *)
















(** ** A match of length zero *)

Lemma set_buf_idx_same (w : World) :
  set_buf_idx w (_buf (self w)) (_idx (self w)) = w.
Proof. destruct w as [f []]; reflexivity. Qed.

(** X9: a pattern match of length zero at the cursor stalls the iteration.
    When the cursor is inside the buffer, not at offset 0, and the pattern
    matches the empty sequence there, [__next__] returns the empty record
    and changes nothing, so every later call does the same: the end of the
    stream is never signalled. *)
Theorem X9_zero_length_match_stalls
    (w : World) (p : str -> Z -> option (Z * Z)) (rstart : Z) (n : nat) :
  delimiter (self w) = Pattern p ->
  p (_buf (self w)) (_idx (self w)) = Some (rstart, _idx (self w)) ->
  0 < _idx (self w) < len (_buf (self w)) ->
  __next__ (advance n w) = (Ok [], w).
Proof.
  intros Hd Hs Hi.
  assert (Hn : __next__ w = (Ok [], w)).
  { unfold __next__, _next, _next_fuel. cbn [_next_loop].
    unfold _next_iter. rewrite Hd, Hs.
    destruct (Z.eqb_spec (len (_buf (self w))) (_idx (self w))) as [?|_];
      [lia|].
    cbn [negb]. rewrite set_buf_idx_same.
    destruct (Z.eqb_spec (_idx (self w)) 0) as [?|_]; [lia|].
    rewrite slice_nat by lia. rewrite Z.sub_diag. reflexivity. }
  induction n as [|n IH]; [exact Hn|].
  cbn [advance]. rewrite Hn. exact IH.
Qed.

(** The pattern [b*] on ["bab"]: after the record ["b"] every call returns
    the empty record. *)
Lemma X9_zero_length_match_witness :
  (exists w0,
      __init__ (Handle (string_io (str_of "bab")))
        (Pattern (search_star "b"%char)) 8 = Ok w0 /\
      __next__ w0 = (Ok (str_of "b"), stalled_scanner)) /\
  __next__ (advance 3 stalled_scanner) = (Ok [], stalled_scanner).
Proof.
  split.
  - eexists. split; reflexivity.
  - apply (X9_zero_length_match_stalls stalled_scanner
             (search_star "b"%char) 1 3).
    + reflexivity.
    + reflexivity.
    + unfold len. simpl. lia.
Defined.

(** ** Peeking by count, then reading a record *)




(** ** How much of the stream is held *)

(** Once the search starts less than a chunk and a delimiter before the
    end of the buffer, the record it returns ends less than a chunk before
    the end of the buffer that comes with it. *)
Lemma _next_loop_surplus (l : str) (fuel : nat) :
  forall u w buf idx search_idx b ms me w',
    loop_inv (Literal l) u w buf idx search_idx ->
    len buf - search_idx <= buffer_size (self w) + len l - 1 ->
    _next_loop fuel (Literal l) w buf idx search_idx = (Ok (b, ms, me), w') ->
    len b - me <= buffer_size (self w) - 1.
Proof.
  induction fuel as [|fuel IH];
    intros u w buf idx search_idx b ms me w' Hinv Hbound H; [discriminate|].
  pose proof Hinv as [_ Ho Hp Hf Hb He [Hi1 Hi2] Hrest Hno].
  cbn [_next_loop] in H. unfold _next_iter in H.
  destruct (Z.eqb_spec (find buf l search_idx) (-1)) as [Hfail|Hfound];
    cbn [negb] in H.
  - destruct (_eof (self w)) eqn:Heof.
    + rewrite _next_refill_eof in H by exact Heof.
      destruct (idx <? len buf); inversion H; subst;
        rewrite ?len_nil; lia.
    + destruct (literal_missing _ _ _ _ _ _ Hinv Hfail) as [Hl _].
      assert (Hlen : 1 <= len l).
      { destruct l; [contradiction | unfold len; cbn [length]; lia]. }
      destruct (_next_refill_more w buf idx (len l - 1) Heof Ho Hp Hf
                  ltac:(lia)) as (w1 & Hstep & _ & _ & _ & _ & Hself).
      destruct (refill_more_inv (Literal l) u w buf idx search_idx
                  (len l - 1) Hinv Heof (conj Hfail eq_refl))
        as (w1' & buf' & sidx' & Hstep' & Hinv' & _).
      rewrite Hstep in Hstep'. inversion Hstep'; subst w1' buf' sidx'.
      rewrite Hstep in H.
      assert (Hbs : buffer_size (self w1) = buffer_size (self w))
        by (now rewrite Hself).
      rewrite <- Hbs. eapply IH; [exact Hinv' | | exact H].
      rewrite Hbs, len_app.
      assert (len (firstn (Z.to_nat (buffer_size (self w)))
                     (remaining (file w))) <= buffer_size (self w)).
      { unfold len. rewrite length_firstn. lia. }
      pose proof (len_nonneg (slice_from buf idx)). lia.
  - inversion H; subst.
    destruct (find_spec b l search_idx) as [[Hr _] | (k & Hk & Hr & _)];
      [lia | contradiction |].
    rewrite Hr. lia.
Qed.

(** The unread part of the buffer after one [__next__]. *)
Lemma __next___surplus (w : World) (l : str) :
  wf w -> delimiter (self w) = Literal l ->
  surplus w <= buffer_size (self w) + len l - 1 ->
  surplus (snd (__next__ w)) <= buffer_size (self w) - 1.
Proof.
  intros Hwf Hd Hs.
  destruct (_next w) as [[[[b ms] me]|e|] w1] eqn:Hn.
  - unfold __next__. rewrite Hn.
    assert (Hb : len b - me <= buffer_size (self w) - 1).
    { unfold _next in Hn. rewrite Hd in Hn.
      eapply _next_loop_surplus; [| |exact Hn].
      - rewrite <- Hd. apply wf_loop_inv; [exact Hwf | now rewrite Hd].
      - exact Hs. }
    destruct (me =? 0); exact Hb.
  - destruct (_next_spec w Hwf) as (b & ms & me & w1' & Hn' & _);
      [now rewrite Hd | congruence].
  - destruct (_next_spec w Hwf) as (b & ms & me & w1' & Hn' & _);
      [now rewrite Hd | congruence].
Qed.

Lemma __init___first_chunk (src : Src) (d : Delimiter) (bs : Z) (w : World) :
  src_ok src -> 0 < bs -> __init__ src d bs = Ok w ->
  _buf (self w) = firstn (Z.to_nat bs) (src_input src) /\
  _idx (self w) = 0.
Proof.
  intros Hsrc Hbs Hi.
  destruct (open_src_file_ok src Hsrc) as (f & Hof & Hc & Hp & Hin).
  destruct (fobj_read_ok f bs Hc Hp ltac:(lia)) as (f' & Hr & _).
  unfold __init__, fobj_tell in Hi. rewrite Hof, Hc, Hr in Hi.
  inversion Hi; subst w. simpl. rewrite Hin. now split.
Qed.

(** X11: the scanner holds less than one chunk of unread input.  With a
    non-empty literal delimiter and a positive chunk size, after
    construction and after any number of [__next__] calls the part of the
    buffer from the cursor on is at most one chunk long, however long the
    source is. *)
Theorem X11_unread_buffer_bound
    (src : Src) (l : str) (bs : Z) (n : nat) :
  src_ok src -> l <> [] -> 0 < bs ->
  exists w0,
    __init__ src (Literal l) bs = Ok w0 /\
    0 <= surplus (advance n w0) <= bs.
Proof.
  intros Hsrc Hl Hbs.
  destruct (__init___spec src (Literal l) bs Hsrc Hbs)
    as (w0 & Hi & Hwf & Hu & Hd & Hb & _).
  exists w0. split; [exact Hi|].
  assert (Hlen : 1 <= len l).
  { destruct l; [contradiction | unfold len; cbn [length]; lia]. }
  assert (Hs0 : surplus w0 <= bs).
  { destruct (__init___first_chunk src (Literal l) bs w0 Hsrc Hbs Hi)
      as [Hbuf Hidx].
    unfold surplus. rewrite Hbuf, Hidx. unfold len.
    rewrite length_firstn. lia. }
  clear Hi Hu.
  revert w0 Hwf Hd Hb Hs0.
  induction n as [|n IH]; intros w Hwf Hd Hb Hs.
  - simpl. pose proof (wf_idx _ Hwf). unfold surplus in *. lia.
  - cbn [advance].
    pose proof (__next___surplus w l Hwf Hd ltac:(lia)) as Hs'.
    destruct (__next___spec w Hwf) as (b & ms & me & w1 & _ & Hn & Hwf' & _ & Hd').
    { now rewrite Hd. }
    pose proof (__next___frame _ _ _ Hn) as (_ & _ & _ & _ & _ & _ & Hbs' & _).
    rewrite Hn in *. cbn [snd] in *.
    apply IH; try assumption; try congruence. lia.
Qed.

Lemma X11_unread_buffer_bound_witness :
  exists w0,
    __init__ (Handle (string_io tilde_lines)) (Literal (str_of "~")) 2
      = Ok w0 /\
    0 <= surplus (advance 3 w0) <= 2.
Proof.
  apply (X11_unread_buffer_bound (Handle (string_io tilde_lines))
           (str_of "~") 2 3).
  - simpl. split; [reflexivity | lia].
  - discriminate.
  - lia.
Defined.

(** ** [is_ascii] *)

Lemma is_ascii_chunk_off (s : str) (off : Z) :
  is_ascii_chunk s off =
  match is_ascii_chunk s 0 with
  | Some (o, e) => Some (off + o, e)
  | None => None
  end.
Proof.
  revert off. induction s as [|c s IH]; intros off; [reflexivity|].
  cbn [is_ascii_chunk].
  destruct (not_ascii_text (byte_value c)); [f_equal; f_equal; lia|].
  rewrite (IH (off + 1)), (IH (0 + 1)).
  destruct (is_ascii_chunk s 0) as [[o e]|]; [|reflexivity].
  f_equal. f_equal. lia.
Qed.

Lemma is_ascii_chunk_app (a b : str) (off : Z) :
  is_ascii_chunk (a ++ b) off =
  match is_ascii_chunk a off with
  | Some r => Some r
  | None => is_ascii_chunk b (off + len a)
  end.
Proof.
  revert off. induction a as [|c a IH]; intros off.
  - simpl. f_equal. unfold len. simpl. lia.
  - cbn [app is_ascii_chunk].
    destruct (not_ascii_text (byte_value c)); [reflexivity|].
    rewrite IH. destruct (is_ascii_chunk a (off + 1)); [reflexivity|].
    f_equal. unfold len. cbn [length]. lia.
Qed.

Lemma is_ascii_chunk_none (s : str) (off : Z) :
  is_ascii_chunk s off = None <-> forallb ascii_text s = true.
Proof.
  revert off. induction s as [|c s IH]; intros off; [now split|].
  cbn [is_ascii_chunk forallb]. unfold ascii_text at 1.
  destruct (not_ascii_text (byte_value c)); cbn [negb andb].
  - split; discriminate.
  - apply IH.
Qed.

Lemma is_ascii_chunk_some (s : str) :
  forall off o e,
    is_ascii_chunk s off = Some (o, e) ->
    exists k c,
      o = off + Z.of_nat k /\ nth_error s k = Some c /\
      e = byte_value c /\ ascii_text c = false /\
      forallb ascii_text (firstn k s) = true.
Proof.
  induction s as [|c s IH]; intros off o e H; [discriminate|].
  cbn [is_ascii_chunk] in H.
  destruct (not_ascii_text (byte_value c)) eqn:Ec.
  - inversion H; subst. exists 0%nat, c.
    repeat split; try reflexivity; try lia.
    unfold ascii_text. now rewrite Ec.
  - apply IH in H as (k & c' & Ho & Hn & He & Hb & Hall).
    exists (S k), c'. repeat split; try assumption; try lia.
    cbn [firstn forallb]. unfold ascii_text at 1. rewrite Ec. exact Hall.
Qed.

Lemma is_ascii_loop_unfold (fuel : nat) (f : File) (bs : Z) (pe : bool)
    (data : str) (seg : Z) :
  is_ascii_loop fuel f bs pe data seg =
  if is_empty data then Ok (true, None)
  else
    match is_ascii_chunk data 0 with
    | Some (off, elem) =>
        Ok (false, if pe then Some (elem, seg * bs + off) else None)
    | None =>
        match fuel with
        | O => Diverge
        | S fuel' =>
            match fobj_read f bs with
            | (Some data', f') => is_ascii_loop fuel' f' bs pe data' (seg + 1)
            | (None, _) => Raise ValueError
            end
        end
    end.
Proof. destruct fuel; reflexivity. Qed.

Lemma firstn_nil_inv (n : nat) (s : str) :
  (0 < n)%nat -> firstn n s = [] -> s = [].
Proof. intros Hn H. destruct n; [lia|]. now destruct s. Qed.

(** Scanning chunk by chunk finds what one scan of all that is left
    finds. *)
Lemma is_ascii_loop_spec (pe : bool) (bs : Z) :
  0 < bs ->
  forall fuel f data seg rest,
    fclosed f = false -> 0 <= fpos f ->
    data = firstn (Z.to_nat bs) rest ->
    remaining f = skipn (Z.to_nat bs) rest ->
    (data <> [] -> (length (remaining f) < fuel)%nat) ->
    is_ascii_loop fuel f bs pe data seg =
    match is_ascii_chunk rest (seg * bs) with
    | None => Ok (true, None)
    | Some (off, elem) => Ok (false, if pe then Some (elem, off) else None)
    end.
Proof.
  intros Hbs.
  assert (Hempty : forall data rest seg,
             data = firstn (Z.to_nat bs) rest -> is_empty data = true ->
             is_ascii_chunk rest (seg * bs) = None).
  { intros data rest seg Hdata Hem. apply is_empty_true in Hem.
    rewrite Hem in Hdata. symmetry in Hdata.
    apply firstn_nil_inv in Hdata; [|lia]. now subst rest. }
  induction fuel as [|fuel IH];
    intros f data seg rest Hc Hp Hdata Hrem Hfuel;
    rewrite is_ascii_loop_unfold;
    destruct (is_empty data) eqn:Em;
    try (rewrite (Hempty data rest seg Hdata Em); reflexivity);
    pose proof (is_empty_false _ Em) as Hne;
    specialize (Hfuel Hne); [lia|].
  assert (Hsplit : rest = data ++ remaining f).
  { rewrite Hdata, Hrem. symmetry. apply firstn_skipn. }
  rewrite Hsplit at 1. rewrite is_ascii_chunk_app.
  rewrite (is_ascii_chunk_off data (seg * bs)).
  destruct (is_ascii_chunk data 0) as [[o e]|]; [reflexivity|].
  destruct (fobj_read_ok f bs Hc Hp ltac:(lia))
    as (f' & Hr & Hrem' & _ & Hc' & Hp').
  rewrite Hr.
  rewrite (IH f' _ (seg + 1) (remaining f) Hc' ltac:(lia) eq_refl Hrem').
  - destruct (remaining f) as [|x r] eqn:Er; [reflexivity|].
    replace (seg * bs + len data) with ((seg + 1) * bs); [reflexivity|].
    assert (length data = Z.to_nat bs).
    { rewrite Hdata, length_firstn.
      assert (length (skipn (Z.to_nat bs) rest) <> 0%nat)
        by (rewrite <- Hrem; simpl; lia).
      rewrite length_skipn in *. lia. }
    unfold len. lia.
  - intros Hd'. rewrite Hrem', length_skipn.
    assert (length (remaining f) <> 0%nat).
    { destruct (remaining f); [now rewrite firstn_nil in Hd'|simpl; lia]. }
    lia.
Qed.

(** X12: [is_ascii] gives the same answer for every positive chunk size: it
    returns [True] exactly when every byte of the file is printable ASCII,
    a line feed or a carriage return.  When it returns [False] with
    [print_error] set, the index it prints is the offset of the first byte
    that is not, and the value it prints is that byte. *)
Theorem X12_is_ascii (content : str) (print_error : bool) (bs : Z) :
  0 < bs ->
  exists ok report,
    is_ascii (Some content) print_error bs = Ok (ok, report) /\
    ok = forallb ascii_text content /\
    (print_error = false \/ ok = true -> report = None) /\
    (print_error = true -> ok = false ->
     exists idx c,
       report = Some (byte_value c, Z.of_nat idx) /\
       nth_error content idx = Some c /\ ascii_text c = false /\
       forallb ascii_text (firstn idx content) = true).
Proof.
  intros Hbs.
  set (f0 := mkFile content 0 false).
  assert (Hrem0 : remaining f0 = content)
    by (unfold remaining; simpl; apply slice_from_zero).
  destruct (fobj_read_ok f0 bs eq_refl ltac:(simpl; lia) ltac:(lia))
    as (f1 & Hr & Hrem1 & _ & Hc1 & Hp1).
  rewrite Hrem0 in Hr, Hrem1.
  assert (His : is_ascii (Some content) print_error bs =
                match is_ascii_chunk content 0 with
                | None => Ok (true, None)
                | Some (off, elem) =>
                    Ok (false, if print_error then Some (elem, off) else None)
                end).
  { unfold is_ascii, open_file. fold f0. rewrite Hr.
    rewrite (is_ascii_loop_spec print_error bs Hbs _ f1 _ 0 content Hc1
               ltac:(simpl in Hp1; lia) eq_refl Hrem1); [reflexivity|].
    intros _. lia. }
  rewrite His.
  destruct (is_ascii_chunk content 0) as [[o e]|] eqn:Ec.
  - destruct (is_ascii_chunk_some content 0 o e Ec)
      as (k & c & Ho & Hn & He & Hb & Hall).
    assert (Hfalse : forallb ascii_text content = false).
    { destruct (forallb ascii_text content) eqn:Ef; [|reflexivity].
      apply (is_ascii_chunk_none content 0) in Ef. congruence. }
    eexists; eexists. split; [reflexivity|]. split; [now rewrite Hfalse|].
    split.
    + intros [-> | H]; [reflexivity | discriminate].
    + intros -> _. exists k, c. subst o e.
      repeat split; assumption.
  - apply is_ascii_chunk_none in Ec.
    eexists; eexists. split; [reflexivity|]. split; [now rewrite Ec|].
    split; [reflexivity | discriminate].
Qed.

Lemma X12_is_ascii_witness :
  exists ok report,
    is_ascii (Some (str_of "abcd" ++ ["200"%char] ++ str_of "fg")) true 3
      = Ok (ok, report) /\
    ok = forallb ascii_text (str_of "abcd" ++ ["200"%char] ++ str_of "fg") /\
    (true = false \/ ok = true -> report = None) /\
    (true = true -> ok = false ->
     exists idx c,
       report = Some (byte_value c, Z.of_nat idx) /\
       nth_error (str_of "abcd" ++ ["200"%char] ++ str_of "fg") idx
         = Some c /\
       ascii_text c = false /\
       forallb ascii_text
         (firstn idx (str_of "abcd" ++ ["200"%char] ++ str_of "fg")) = true).
Proof.
  apply (X12_is_ascii (str_of "abcd" ++ ["200"%char] ++ str_of "fg") true 3).
  lia.
Defined.

(** ** [md5sum] and [sha256sum] *)

Lemma hash_loop_unfold (alg : HashAlg) (fuel : nat) (f : File) (bs : Z)
    (hsh : hstate alg) (data : str) :
  hash_loop alg fuel f bs hsh data =
  if is_empty data then Ok hsh
  else
    match fuel with
    | O => Diverge
    | S fuel' =>
        match fobj_read f bs with
        | (Some data', f') =>
            hash_loop alg fuel' f' bs (h_update alg hsh data) data'
        | (None, _) => Raise ValueError
        end
    end.
Proof. destruct fuel; reflexivity. Qed.

(** Feeding the hash object chunk by chunk leaves it as one [update] with
    all that was left does. *)
Lemma hash_loop_spec (alg : HashAlg) (bs : Z) :
  hash_laws alg -> 0 < bs ->
  forall fuel f data hsh rest,
    fclosed f = false -> 0 <= fpos f ->
    data = firstn (Z.to_nat bs) rest ->
    remaining f = skipn (Z.to_nat bs) rest ->
    (data <> [] -> (length (remaining f) < fuel)%nat) ->
    hash_loop alg fuel f bs hsh data = Ok (h_update alg hsh rest).
Proof.
  intros [Hnil Happ] Hbs.
  assert (Hempty : forall data rest,
             data = firstn (Z.to_nat bs) rest -> is_empty data = true ->
             rest = []).
  { intros data rest Hdata Hem. apply is_empty_true in Hem.
    rewrite Hem in Hdata. symmetry in Hdata.
    now apply firstn_nil_inv in Hdata; [|lia]. }
  induction fuel as [|fuel IH];
    intros f data hsh rest Hc Hp Hdata Hrem Hfuel;
    rewrite hash_loop_unfold;
    destruct (is_empty data) eqn:Em;
    try (rewrite (Hempty data rest Hdata Em), Hnil; reflexivity);
    pose proof (is_empty_false _ Em) as Hne;
    specialize (Hfuel Hne); [lia|].
  destruct (fobj_read_ok f bs Hc Hp ltac:(lia))
    as (f' & Hr & Hrem' & _ & Hc' & Hp').
  rewrite Hr.
  rewrite (IH f' _ _ (remaining f) Hc' ltac:(lia) eq_refl Hrem').
  - rewrite Happ. f_equal. f_equal.
    rewrite Hdata, Hrem. apply firstn_skipn.
  - intros Hd'. rewrite Hrem', length_skipn.
    assert (length (remaining f) <> 0%nat).
    { destruct (remaining f); [now rewrite firstn_nil in Hd'|simpl; lia]. }
    lia.
Qed.

(** X13: for hash objects that meet the contract of [hashlib], [md5sum]
    and [sha256sum] return the digest of the whole content of the file,
    whatever the positive chunk size. *)
Theorem X13_digest_of_whole_file
    (md5 sha256 : HashAlg) (content : str) (bs : Z) :
  hash_laws md5 -> hash_laws sha256 -> 0 < bs ->
  md5sum md5 (Some content) bs =
    Ok (h_hexdigest md5 (h_update md5 (h_new md5) content)) /\
  sha256sum sha256 (Some content) bs =
    Ok (h_hexdigest sha256 (h_update sha256 (h_new sha256) content)).
Proof.
  intros Hm Hs Hbs.
  set (f0 := mkFile content 0 false).
  assert (Hrem0 : remaining f0 = content)
    by (unfold remaining; simpl; apply slice_from_zero).
  destruct (fobj_read_ok f0 bs eq_refl ltac:(simpl; lia) ltac:(lia))
    as (f1 & Hr & Hrem1 & _ & Hc1 & Hp1).
  rewrite Hrem0 in Hr, Hrem1.
  assert (Hp1' : 0 <= fpos f1) by (simpl in Hp1; lia).
  split.
  - unfold md5sum, open_file. fold f0. rewrite Hr.
    rewrite (hash_loop_spec md5 bs Hm Hbs _ f1 _ _ content Hc1 Hp1' eq_refl
               Hrem1); [reflexivity|].
    intros _. lia.
  - unfold sha256sum, open_file. fold f0. rewrite Hr.
    rewrite (hash_loop_spec sha256 bs Hs Hbs _ f1 _ _ content Hc1 Hp1' eq_refl
               Hrem1); [reflexivity|].
    intros _. lia.
Qed.

Lemma keep_all_laws : hash_laws keep_all.
Proof.
  split; simpl.
  - intros h. apply app_nil_r.
  - intros h a b. symmetry. apply app_assoc.
Qed.

Lemma X13_digest_witness :
  md5sum keep_all (Some (str_of "abcdefg")) 3 = Ok (str_of "abcdefg") /\
  sha256sum keep_all (Some (str_of "abcdefg")) 3 = Ok (str_of "abcdefg").
Proof.
  apply (X13_digest_of_whole_file keep_all keep_all (str_of "abcdefg") 3).
  - exact keep_all_laws.
  - exact keep_all_laws.
  - lia.
Defined.

(** X14: a chunk size of 0 makes the three file checks blind.  The first
    read returns nothing and the loop never runs: [is_ascii] returns [True]
    and prints nothing whatever the file holds, and [md5sum] and
    [sha256sum] return the digest of the empty input. *)
Theorem X14_chunk_size_zero_checks
    (md5 sha256 : HashAlg) (content : str) (print_error : bool) :
  is_ascii (Some content) print_error 0 = Ok (true, None) /\
  md5sum md5 (Some content) 0 = Ok (h_hexdigest md5 (h_new md5)) /\
  sha256sum sha256 (Some content) 0 =
    Ok (h_hexdigest sha256 (h_new sha256)).
Proof.
  set (f0 := mkFile content 0 false).
  destruct (fobj_read_ok f0 0 eq_refl ltac:(simpl; lia) ltac:(lia))
    as (f1 & Hr & _).
  simpl in Hr.
  unfold is_ascii, md5sum, sha256sum, open_file. fold f0. rewrite Hr.
  repeat split.
Qed.

(** ** Where a record ends *)

(** The first record holds the delimiter at its end at most. *)
Lemma first_record_minimal (l u : str) (j : nat) :
  (j + length l < length (first_record l u))%nat ->
  occ l (first_record l u) j = false.
Proof.
  intros Hj.
  destruct (find_spec u l 0) as [[Hr Hno] | (k & Hk & Hr & Hocc & Hno)].
  - pose proof (len_nonneg u); lia.
  - assert (Hfr : first_record l u = u)
      by (unfold first_record; now rewrite Hr).
    rewrite Hfr in *. apply Hno. lia.
  - assert (Hfit : (k + length l <= length u)%nat).
    { destruct (occ_length _ _ _ Hocc) as [H|H]; [exact H | subst l; simpl; lia]. }
    rewrite (first_record_found l u k Hfit Hocc) in * by (intros; apply Hno; lia).
    rewrite length_firstn in Hj.
    rewrite <- (occ_app l (firstn (k + length l) u)
                  (skipn (k + length l) u) j)
      by (rewrite length_firstn; lia).
    rewrite firstn_skipn. apply Hno. lia.
Qed.

(** X15: a record ends at the first occurrence of the delimiter.  With a
    non-empty literal delimiter and input left, the record that [__next__]
    returns is not empty, the delimiter occurs nowhere in it except
    possibly at its very end, and it either ends with the delimiter or
    takes all that was left. *)
Theorem X15_record_ends_at_first_delimiter (w : World) (l : str) :
  wf w -> delimiter (self w) = Literal l -> l <> [] ->
  unconsumed w <> [] ->
  exists r w',
    __next__ w = (Ok r, w') /\ r <> [] /\
    (forall j, (j + length l < length r)%nat -> occ l r j = false) /\
    (endswith l r \/ (r = unconsumed w /\ unconsumed w' = [])).
Proof.
  intros Hwf Hd Hl Hu.
  destruct (__next___spec w Hwf)
    as (b & ms & me & w1 & Hpost & Hn & _ & Hu' & _).
  { now rewrite Hd. }
  rewrite Hd in Hpost.
  pose proof (np_range _ _ _ _ _ _ _ Hpost) as [Hr1 Hr2].
  pose proof (np_record _ _ _ _ _ _ _ Hpost) as Hrec. cbv beta iota in Hrec.
  destruct (np_span _ _ _ _ _ _ _ Hpost Hl) as [(Hu0 & _) | Hspan];
    [contradiction|].
  destruct (Z.eqb_spec me 0) as [?|_]; [lia|].
  exists (first_record l (unconsumed w)), (set_buf_idx w1 b me).
  split; [now rewrite Hn, Hrec|].
  split; [now apply first_record_nonempty|].
  split; [intros j; apply first_record_minimal|].
  destruct (first_record_cases l (unconsumed w))
    as [[Hfr _] | (k & _ & _ & Hfr)].
  - right. split; [exact Hfr|].
    rewrite Hu', <- (length_slice b ms me), Hrec, Hfr by lia.
    apply skipn_all.
  - left. exists (firstn k (unconsumed w)). exact Hfr.
Qed.

Lemma X15_record_ends_witness :
  exists r w',
    __next__ split_scanner = (Ok r, w') /\ r <> [] /\
    (forall j, (j + length (str_of "-=-") < length r)%nat ->
               occ (str_of "-=-") r j = false) /\
    (endswith (str_of "-=-") r \/
     (r = unconsumed split_scanner /\ unconsumed w' = [])).
Proof.
  apply (X15_record_ends_at_first_delimiter split_scanner (str_of "-=-")).
  - constructor; simpl; try reflexivity; try lia; try discriminate.
    unfold len; simpl; lia.
  - reflexivity.
  - discriminate.
  - discriminate.
Defined.
